(** * ugen: unique login names from colon-delimited personnel records

    A shallow embedding of [ugen.py] (functions [create_login_name] and
    [read_input_files]) and the properties of its record parser and login
    generator; then [write_output_file] and [main] of the same file, taken
    from the parsed arguments on, and [compare_files] of the test driver
    [test.py].

    Python objects are modelled as follows.
    - [str]: a [string] whose characters are the code points 0..255 (one
      [ascii] per code point).  [str.strip], [str.split], [str.isdigit] and
      [str.splitlines] look at one character at a time, and are Python's
      functions restricted to these code points.  [Str.lower] is Python's
      [str.lower] on these code points only: beyond them [str.lower] can
      lengthen a string (U+0130) and depends on the context (U+03A3).
      What is proved of the shape of a login that rests on [lower] (its
      length, its initials, its case) is therefore proved in [Unicode], for
      strings over any alphabet and for any [lower] with the properties
      stated there, which Python's has.
    - [set] of [str] (the login registry): [gset string].
    - [int] counter: [nat], printed by [str] in decimal.
    - the mutable registry, the returned list and [sys.stderr] are threaded
      explicitly; writing to [sys.stderr] is taken to succeed.
    - reading a path is an outcome of [open] followed by the lines the file
      object yields and the exception, if any, that ends the iteration.
    - opening the output path either raises or gives a file that takes
      every write.
    - the [while] loop of [create_login_name] carries a fuel argument; that
      the fuel given is enough, and that more changes nothing, is proved. *)

From Stdlib Require Import Ascii String DecimalString DecimalNat.
From stdpp Require Import gmap sets list strings.

Local Open Scope N_scope.

(** ** Characters *)

Module Char.

Definition code (c : ascii) : N := N_of_ascii c.

(** Code points below 256 that [str.lower] changes: A-Z, and the Latin-1
    capitals U+00C0..U+00DE except the multiplication sign U+00D7. *)
Definition is_upper (c : ascii) : bool :=
  let n := code c in
  ((65 <=? n) && (n <=? 90)) ||
  ((192 <=? n) && (n <=? 222) && negb (n =? 215)).

Definition lower (c : ascii) : ascii :=
  if is_upper c then ascii_of_N (code c + 32) else c.

(** [str.isspace] on one code point below 256: TAB..CR, FS..US, space,
    NEL (U+0085) and NBSP (U+00A0). *)
Definition isspace (c : ascii) : bool :=
  let n := code c in
  ((9 <=? n) && (n <=? 13)) || ((28 <=? n) && (n <=? 32)) ||
  (n =? 133) || (n =? 160).

(** The ten decimal digits 0-9. *)
Definition is_decimal (c : ascii) : bool :=
  let n := code c in (48 <=? n) && (n <=? 57).

(** [str.isdigit] on one code point below 256: the decimal digits and the
    superscript digits U+00B2, U+00B3, U+00B9. *)
Definition isdigit (c : ascii) : bool :=
  let n := code c in
  is_decimal c || (n =? 178) || (n =? 179) || (n =? 185).

Definition colon : ascii := ":"%char.

End Char.

Local Close Scope N_scope.

(** ** Strings: the [str] methods the program calls *)

Module Str.

(** [len(s)] *)
Abbreviation len := String.length.

(** [s[:n]] *)
Fixpoint take (n : nat) (s : string) : string :=
  match n, s with
  | S n', String c s' => String c (take n' s')
  | _, _ => ""
  end.

(** [s.lower()], for a string of code points below 256 *)
Fixpoint lower (s : string) : string :=
  match s with
  | "" => ""
  | String c s' => String (Char.lower c) (lower s')
  end.

(** [s.lstrip()] *)
Fixpoint lstrip (s : string) : string :=
  match s with
  | "" => ""
  | String c s' => if Char.isspace c then lstrip s' else s
  end.

(** [s.rstrip()] *)
Fixpoint rstrip (s : string) : string :=
  match s with
  | "" => ""
  | String c s' =>
      match rstrip s' with
      | "" => if Char.isspace c then "" else String c ""
      | r => String c r
      end
  end.

(** [s.strip()] *)
Definition strip (s : string) : string := rstrip (lstrip s).

(** Truthiness of a string: [bool(s)], false exactly for the empty one. *)
Definition truthy (s : string) : bool :=
  match s with "" => false | _ => true end.

(** [all(c in "0123456789" for c in s)] *)
Fixpoint all_decimal (s : string) : bool :=
  match s with
  | "" => true
  | String c s' => Char.is_decimal c && all_decimal s'
  end.

Fixpoint all_isdigit (s : string) : bool :=
  match s with
  | "" => true
  | String c s' => Char.isdigit c && all_isdigit s'
  end.

(** [s.isdigit()]: at least one character, and all of them digits. *)
Definition isdigit (s : string) : bool := truthy s && all_isdigit s.

(** [s.split(sep)] for a one-character separator: the piece before the
    first separator, and the pieces after it. *)
Fixpoint split_go (sep : ascii) (s : string) : string * list string :=
  match s with
  | "" => ("", [])
  | String c s' =>
      let '(p, ps) := split_go sep s' in
      if Ascii.eqb c sep then ("", p :: ps) else (String c p, ps)
  end.

Definition split (sep : ascii) (s : string) : list string :=
  let '(p, ps) := split_go sep s in p :: ps.

(** [sep.join(l)] *)
Abbreviation join := String.concat.

(** [c in s] for a character *)
Fixpoint mem (c : ascii) (s : string) : bool :=
  match s with
  | "" => false
  | String d s' => Ascii.eqb c d || mem c s'
  end.

(** [s.startswith(p)] *)
Abbreviation startswith := String.prefix.

(** [sub in s] for strings *)
Fixpoint contains (sub s : string) : bool :=
  String.prefix sub s ||
  match s with
  | "" => false
  | String _ s' => contains sub s'
  end.

(** [str(n)] for a non-negative integer *)
Definition of_nat (n : nat) : string :=
  NilEmpty.string_of_uint (Nat.to_uint n).

End Str.

(** ** The login generator *)

(** The registry: Python's [set] of login strings. *)
Abbreviation registry := (gset string).

(** [initials] as computed by lines 56-58. *)
Definition initials (given_name middle_name : string) : string :=
  let initials := Str.lower (Str.take 1 given_name) in
  if Str.truthy middle_name
  then initials +:+ Str.lower (Str.take 1 middle_name)
  else initials.

(** [base_name] as computed by lines 60-61. *)
Definition base_name (given_name middle_name family_name : string) : string :=
  Str.take 8 (Str.lower (initials given_name middle_name +:+ family_name)).

(** The loop of lines 65-67, entered with the current [username] and
    [counter]; [fuel] bounds the number of times the body runs. *)
Fixpoint while_taken (fuel : nat) (base_name username : string) (counter : nat)
    (existing_logins : registry) : option string :=
  if decide (username ∈ existing_logins) then
    match fuel with
    | 0 => None
    | S fuel' =>
        while_taken fuel' base_name (base_name +:+ Str.of_nat counter)
          (S counter) existing_logins
    end
  else Some username.

(** [create_login_name]: the returned login and the registry after the
    call.  The loop gets as much fuel as the registry has elements. *)
Definition create_login_name (given_name middle_name family_name : string)
    (existing_logins : registry) : option (string * registry) :=
  let base_name := base_name given_name middle_name family_name in
  match while_taken (size existing_logins) base_name base_name 1
          existing_logins with
  | Some username => Some (username, {[username]} ∪ existing_logins)
  | None => None
  end.


(** ** The record parser *)

(** The fields of an accepted line (lines 109-132). *)
Record ParsedRecord := {
  user_id : string;
  given_name : string;
  middle_name : string;
  surname : string;
  department : string
}.

(** What the body of the line loop does with one line, up to the call of
    [create_login_name]: [continue] silently, [continue] after the warning
    of line 111, or go on with the fields. *)
Inductive line_outcome :=
| Discarded
| InvalidId (user_id line : string)
| Accepted (r : ParsedRecord).

(** [parts] of line 105, for the raw line as the file yields it. *)
Definition parts_of (raw : string) : list string :=
  map Str.strip (Str.split Char.colon (Str.strip raw)).

(** Lines 100-136. *)
Definition parse_line (raw : string) : line_outcome :=
  let line := Str.strip raw in
  if negb (Str.truthy line) then Discarded else
  let parts := map Str.strip (Str.split Char.colon line) in
  if length parts <? 4 then Discarded else
  let user_id := nth 0 parts "" in
  if negb (Str.isdigit user_id) then InvalidId user_id line else
  let given_name := nth 1 parts "" in
  let '(middle_name, surname, department) :=
    if length parts =? 5 then (nth 2 parts "", nth 3 parts "", nth 4 parts "")
    else if length parts =? 4 then ("", nth 2 parts "", nth 3 parts "")
    else if 5 <? length parts then
      (nth 2 parts "", nth 3 parts "", Str.join ":" (drop 4 parts))
    else ("", "", "") in
  if negb (Str.truthy (Str.strip surname)) then Discarded else
  Accepted {| user_id := user_id; given_name := given_name;
              middle_name := middle_name; surname := surname;
              department := department |}.

(** The f-string of line 139. *)
Definition output_line (r : ParsedRecord) (login : string) : string :=
  user_id r +:+ ":" +:+ login +:+ ":" +:+ given_name r +:+ ":" +:+
  middle_name r +:+ ":" +:+ surname r +:+ ":" +:+ department r.

Definition newline : string := String (ascii_of_nat 10) "".

(** What line 111 prints to [sys.stderr]. *)
Definition warning_message (user_id line : string) : string :=
  "[Warning] Invalid non-numeric ID '" +:+ user_id +:+ "' in line: " +:+
  line +:+ ". Skipping..." +:+ newline.

(** What line 142 writes to [sys.stderr]. *)
Definition error_message (file_path e : string) : string :=
  "[Error] Unexpected error reading " +:+ file_path +:+ ": " +:+ e +:+ newline.

(** The mutable objects of a run: the list [combined_records], the shared
    set [existing_logins], and what has been written to [sys.stderr]. *)
Record run := {
  combined_records : list string;
  existing_logins : registry;
  stderr : list string
}.

(** One turn of the loop of line 99. *)
Definition process_line (raw : string) (st : run) : option run :=
  match parse_line raw with
  | Discarded => Some st
  | InvalidId user_id line =>
      Some {| combined_records := combined_records st;
              existing_logins := existing_logins st;
              stderr := stderr st ++ [warning_message user_id line] |}
  | Accepted r =>
      match create_login_name (given_name r) (middle_name r) (surname r)
              (existing_logins st) with
      | Some (login, logins') =>
          Some {| combined_records := combined_records st ++ [output_line r login];
                  existing_logins := logins';
                  stderr := stderr st |}
      | None => None
      end
  end.

(** The loop of line 99 over the lines a file yields. *)
Fixpoint for_lines (lines : list string) (st : run) : option run :=
  match lines with
  | [] => Some st
  | raw :: rest =>
      match process_line raw st with
      | Some st' => for_lines rest st'
      | None => None
      end
  end.

(** What reading one path does: [open] raises (file missing, permission
    denied, ...), or the file object yields some lines and then either is
    exhausted or raises from its iterator (a decoding or read error met
    after those lines).  The string is [str(e)] of the exception. *)
Inductive file_read :=
| OpenRaises (e : string)
| Yields (lines : list string) (raised : option string).

Definition file_system := string → file_read.

(** The handler of lines 141-143. *)
Definition report_error (file_path e : string) (st : run) : run :=
  {| combined_records := combined_records st;
     existing_logins := existing_logins st;
     stderr := stderr st ++ [error_message file_path e] |}.

(** The [try] statement of lines 97-143 for one path. *)
Definition read_file (fs : file_system) (file_path : string) (st : run)
    : option run :=
  match fs file_path with
  | OpenRaises e => Some (report_error file_path e st)
  | Yields lines raised =>
      match for_lines lines st with
      | Some st' =>
          Some (match raised with
                | Some e => report_error file_path e st'
                | None => st'
                end)
      | None => None
      end
  end.

(** The loop of line 96. *)
Fixpoint for_files (fs : file_system) (files : list string) (st : run)
    : option run :=
  match files with
  | [] => Some st
  | file_path :: rest =>
      match read_file fs file_path st with
      | Some st' => for_files fs rest st'
      | None => None
      end
  end.

(** [read_input_files]: the returned list [combined_records], with the
    registry as the call leaves it and the text written to [sys.stderr]. *)
Definition read_input_files (fs : file_system) (files : list string)
    (existing_logins : registry) : option run :=
  for_files fs files
    {| combined_records := []; existing_logins := existing_logins;
       stderr := [] |}.

(** The login field of an output record: the text between its first and
    second colon. *)
Definition login_of (record : string) : string :=
  nth 1 (Str.split Char.colon record) "".

Definition one_file (lines : list string) : file_system :=
  fun _ => Yields lines None.

(** ** Runs seen as sequences of calls *)

(** A sequence of calls of [create_login_name] on one shared registry: for
    each call, the login it returns and the registry as it leaves it. *)
Fixpoint call_trace (calls : list (string * string * string))
    (existing_logins : registry) : option (list (string * registry)) :=
  match calls with
  | [] => Some []
  | (given_name, middle_name, family_name) :: rest =>
      match create_login_name given_name middle_name family_name
              existing_logins with
      | Some (username, logins') =>
          match call_trace rest logins' with
          | Some tr => Some ((username, logins') :: tr)
          | None => None
          end
      | None => None
      end
  end.

(** The calls line 138 makes for a list of accepted records: the logins in
    call order and the registry after the last call. *)
Fixpoint assign_logins (rs : list ParsedRecord) (existing_logins : registry)
    : option (list string * registry) :=
  match rs with
  | [] => Some ([], existing_logins)
  | r :: rest =>
      match create_login_name (given_name r) (middle_name r) (surname r)
              existing_logins with
      | Some (login, logins') =>
          match assign_logins rest logins' with
          | Some (us, logins'') => Some (login :: us, logins'')
          | None => None
          end
      | None => None
      end
  end.

(** The record of a line that reaches line 138. *)
Definition accepted (raw : string) : option ParsedRecord :=
  match parse_line raw with
  | Accepted r => Some r
  | _ => None
  end.

(** The warning a line prints, if any. *)
Definition warning_of (raw : string) : list string :=
  match parse_line raw with
  | InvalidId user_id line => [warning_message user_id line]
  | _ => []
  end.

(** The lines the loop of line 99 gets to see for a path. *)
Definition lines_read (r : file_read) : list string :=
  match r with
  | OpenRaises _ => []
  | Yields lines _ => lines
  end.

(** The exception a read ends with, if any. *)
Definition raised_by (r : file_read) : option string :=
  match r with
  | OpenRaises e => Some e
  | Yields _ raised => raised
  end.

(** Accepted records of one path in line order, and of a list of paths in
    list order. *)
Definition file_records (fs : file_system) (file_path : string)
    : list ParsedRecord :=
  omap accepted (lines_read (fs file_path)).

Definition accepted_records (fs : file_system) (files : list string)
    : list ParsedRecord :=
  files ≫= file_records fs.

(** Everything one path writes to [sys.stderr], and a list of paths. *)
Definition file_stderr (fs : file_system) (file_path : string) : list string :=
  (lines_read (fs file_path) ≫= warning_of) ++
  match raised_by (fs file_path) with
  | Some e => [error_message file_path e]
  | None => []
  end.

Definition diagnostics (fs : file_system) (files : list string) : list string :=
  files ≫= file_stderr fs.

(** A record whose identifier and name fields contain no colon, as every
    piece of [split(":")] does. *)
Definition colon_free (s : string) : Prop := Str.mem Char.colon s = false.

Definition plain_fields (r : ParsedRecord) : Prop :=
  colon_free (user_id r) ∧ colon_free (given_name r) ∧
  colon_free (middle_name r) ∧ colon_free (surname r).

(** ** The specification's wording *)

(** The surname field by part count: [parts[2]] for four parts, [parts[3]]
    otherwise. *)
Definition surname_part (parts : list string) : string :=
  if length parts =? 4 then nth 2 parts "" else nth 3 parts "".

(** The acceptance condition of a raw line, for a given test of the
    identifier: non-empty after trimming, at least four parts, identifier
    passing the test, surname part non-empty after trimming. *)
Definition acceptance_condition (id_test : string → bool) (raw : string)
    : bool :=
  let parts := parts_of raw in
  Str.truthy (Str.strip raw) && (4 <=? length parts) &&
  id_test (nth 0 parts "") && Str.truthy (Str.strip (surname_part parts)).

(** The condition under which a line prints the warning: non-empty after
    trimming, at least four parts, identifier failing the test. *)
Definition warning_condition (id_test : string → bool) (raw : string)
    : bool :=
  let parts := parts_of raw in
  Str.truthy (Str.strip raw) && (4 <=? length parts) &&
  negb (id_test (nth 0 parts "")).

(** An identifier made of one or more of the decimal digits 0-9. *)
Definition decimal_id (s : string) : bool := Str.truthy s && Str.all_decimal s.

(** A read that ended in an exception. *)
Definition read_failed (r : file_read) : bool :=
  match raised_by r with Some _ => true | None => false end.

(** The code point U+00B2, SUPERSCRIPT TWO. *)
Definition superscript_two : ascii := ascii_of_nat 178.

(** ** Example inputs *)

(** The state [read_input_files] starts from with an empty registry. *)
Definition empty_run : run :=
  {| combined_records := []; existing_logins := ∅; stderr := [] |}.

(** A line whose identifier is the single character U+00B2. *)
Definition superscript_line : string :=
  String superscript_two ":Anna:Smith:IT".

(** A file that yields one line and then raises while being read, as a
    file does whose first line is followed by bytes that are not UTF-8
    beyond the first buffer. *)
Definition late_failure : file_system :=
  fun _ => Yields ["1:A:B:C"] (Some "invalid start byte").

(** Two files, "a" and any other path, holding the same record. *)
Definition duplicate_id_files : file_system :=
  fun file_path =>
    if String.eqb file_path "a"
    then Yields ["4563:Jozef::Murgas:Development"] None
    else Yields ["4563:Jozef::Murgas:Development";
                 "4563:Pista::Hufnagel:Sales"] None.

(** ** The rest of [ugen.py], and helpers to speak about it *)

(** [s.count(c)] for a character. *)
Fixpoint count_char (c : ascii) (s : string) : nat :=
  match s with
  | "" => 0
  | String d s' => (if Ascii.eqb d c then 1 else 0) + count_char c s'
  end.

(** A string of whitespace characters only, the empty one included. *)
Fixpoint all_space (s : string) : bool :=
  match s with
  | "" => true
  | String c s' => Char.isspace c && all_space s'
  end.

(** A string in which the character [c] does not occur. *)
Definition free_of (c : ascii) (s : string) : Prop := Str.mem c s = false.

(** The line feed, as a character. *)
Definition line_feed : ascii := ascii_of_nat 10.

(** The names the loop of lines 63-67 tries, in order: the base itself,
    then the base followed by [str(1)], [str(2)], ... *)
Definition candidate (base_name : string) (k : nat) : string :=
  match k with
  | 0 => base_name
  | S _ => base_name +:+ Str.of_nat k
  end.

(** The text the calls of [out_f.write] (line 157) put into the file, one
    after the other. *)
Definition written_text (records : list string) : string :=
  foldr (fun record text => (record +:+ newline) +:+ text) "" records.

(** What [open(path, "w")] does for each path: [Some e] when it raises
    (no such directory, permission denied, ...), [e] being the text of the
    exception, and [None] when it returns a file object. *)
Definition opener := string → option string.

(** How [write_output_file] ends. *)
Inductive write_outcome :=
| WriteRaises (e : string)
| Wrote (text : string).

(** [write_output_file] (lines 155-157): the exception of [open] when it
    raises, nothing being written then; otherwise the text the destination
    holds when the [with] block is left.  Writing to a file that has been
    opened is taken to succeed. *)
Definition write_output_file (opens : opener) (destination : string)
    (records : list string) : write_outcome :=
  match opens destination with
  | Some e => WriteRaises e
  | None => Wrote (written_text records)
  end.

(** How [main] ends: with the exception [write_output_file] lets through,
    or with the output written; in both cases after the diagnostics of
    [read_input_files] have been printed. *)
Inductive main_outcome :=
| MainRaises (printed : list string) (e : string)
| MainWrote (printed : list string) (text : string).

(** [main] (lines 165-170), from the parsed arguments [args.output] and
    [args.input_files] on. *)
Definition main (fs : file_system) (opens : opener) (output : string)
    (input_files : list string) : option main_outcome :=
  match read_input_files fs input_files ∅ with
  | Some st =>
      match write_output_file opens output (combined_records st) with
      | WriteRaises e => Some (MainRaises (stderr st) e)
      | Wrote text => Some (MainWrote (stderr st) text)
      end
  | None => None
  end.

(** A file system in which no path can be opened for reading. *)
Definition unopenable : file_system :=
  fun _ => OpenRaises "[Errno 2] No such file or directory".

(** ** [compare_files] of the test driver [test.py] *)

(** The line boundaries of [str.splitlines] among the code points below
    256: LF, VT, FF, CR, FS, GS, RS and NEL. *)
Definition is_linebreak (c : ascii) : bool :=
  let n := Char.code c in
  ((10 <=? n) && (n <=? 13) || (28 <=? n) && (n <=? 30) || (n =? 133))%N.

Definition carriage_return : ascii := ascii_of_nat 13.

(** [s.splitlines()]: the lines without their boundaries, CR LF counting
    as one boundary, and no empty last line after a final boundary. *)
Fixpoint splitlines (s : string) : list string :=
  match s with
  | "" => []
  | String c s' =>
      if is_linebreak c then
        "" :: match s' with
              | "" => []
              | String d s'' =>
                  if Ascii.eqb c carriage_return && Ascii.eqb d line_feed
                  then splitlines s''
                  else splitlines s'
              end
      else
        match splitlines s' with
        | [] => [String c ""]
        | l :: ls => String c l :: ls
        end
  end.

(** The loop of lines 35-37 of [test.py], entered with index [i]. *)
Fixpoint line_diffs (i : nat) (data1 data2 : list string) : list string :=
  match data1, data2 with
  | line1 :: rest1, line2 :: rest2 =>
      (if decide (line1 = line2) then []
       else ["Line " +:+ Str.of_nat (i + 1) +:+ ":" +:+ newline +:+
             "Expected: " +:+ line1 +:+ newline +:+
             "Actual:   " +:+ line2]) ++
      line_diffs (S i) rest1 rest2
  | _, _ => []
  end.

(** [compare_files] (lines 19-42 of [test.py]), from what the two paths
    hold: nothing, or the text [read()] returns. *)
Definition compare_files (file1 file2 : option string) : bool * string :=
  match file1, file2 with
  | Some text1, Some text2 =>
      let data1 := Str.rstrip <$> splitlines text1 in
      let data2 := Str.rstrip <$> splitlines text2 in
      if decide (data1 = data2) then (true, "")
      else
        let diff :=
          line_diffs 0 data1 data2 ++
          (if decide (length data1 = length data2) then []
           else ["Line count mismatch: Expected " +:+
                 Str.of_nat (length data1) +:+ ", Actual " +:+
                 Str.of_nat (length data2)]) in
        (false, Str.join (newline +:+ newline) diff)
  | _, _ => (false, "One or both files do not exist.")
  end.

(** A non-empty text whose last character is no line boundary. *)
Fixpoint open_ended (s : string) : bool :=
  match s with
  | "" => false
  | String c "" => negb (is_linebreak c)
  | String _ s' => open_ended s'
  end.

(** ** The login generator over any alphabet

    Lines 56-70 once more, for strings that are lists of characters of an
    arbitrary type [char] (for Python, all Unicode code points) and with
    [str.lower] a parameter [lower] of which nothing is fixed here: it may
    change the length of a string and depend on the context of a
    character, as Python's does.  [of_ascii] gives the character of a code
    point below 256; the digits of [str(counter)] are such characters. *)

Module Unicode.

Section Generator.

Context {char : Type} `{Countable char}.

Variable lower : list char → list char.
Variable of_ascii : ascii → char.

(** [str(n)] for a non-negative integer *)
Definition str (n : nat) : list char :=
  of_ascii <$> list_ascii_of_string (Str.of_nat n).

(** [initials] as computed by lines 56-58. *)
Definition initials (given_name middle_name : list char) : list char :=
  let initials := lower (take 1 given_name) in
  match middle_name with
  | [] => initials
  | _ :: _ => initials ++ lower (take 1 middle_name)
  end.

(** [base_name] as computed by lines 60-61. *)
Definition base_name (given_name middle_name family_name : list char)
    : list char :=
  take 8 (lower (initials given_name middle_name ++ family_name)).

(** The loop of lines 65-67, with fuel. *)
Fixpoint while_taken (fuel : nat) (base_name username : list char)
    (counter : nat) (existing_logins : gset (list char))
    : option (list char) :=
  if decide (username ∈ existing_logins) then
    match fuel with
    | 0 => None
    | S fuel' =>
        while_taken fuel' base_name (base_name ++ str counter)
          (S counter) existing_logins
    end
  else Some username.

(** [create_login_name]: the returned login and the registry after the
    call. *)
Definition create_login_name
    (given_name middle_name family_name : list char)
    (existing_logins : gset (list char))
    : option (list char * gset (list char)) :=
  let base_name := base_name given_name middle_name family_name in
  match while_taken (size existing_logins) base_name base_name 1
          existing_logins with
  | Some username => Some (username, {[username]} ∪ existing_logins)
  | None => None
  end.

(** The specification's wording: the lowercase first character of a name,
    or nothing if the name is empty. *)
Definition first_lower (name : list char) : list char :=
  match name with
  | [] => []
  | c :: _ => lower [c]
  end.

(** The initials a login starts with. *)
Definition initials_prefix (given_name middle_name : list char) : list char :=
  first_lower given_name ++ first_lower middle_name.

End Generator.

End Unicode.

(** An alphabet wider than a byte, to try the above on: code points as
    numbers, and a [lower] that turns A-Z into a-z and, like Python's,
    U+0130 (capital I with dot above) into the two characters U+0069
    U+0307, and leaves every other code point as it is. *)
Definition sample_lower_char (c : N) : list N :=
  if ((65 <=? c) && (c <=? 90))%N then [(c + 32)%N]
  else if (c =? 304)%N then [105%N; 775%N]
  else [c].

Definition sample_lower (s : list N) : list N := s ≫= sample_lower_char.

(** The code points of a string of bytes. *)
Definition code_points (s : string) : list N :=
  N_of_ascii <$> list_ascii_of_string s.

(** [Str.lower] on lists of characters, and a registry of strings as a
    registry of lists of characters. *)
Definition byte_lower (s : list ascii) : list ascii := Char.lower <$> s.

Definition as_lists (reg : registry) : gset (list ascii) :=
  set_map list_ascii_of_string reg.

(** * Properties *)

(** ** Strings *)

Lemma app_empty_l (s : string) : "" +:+ s = s.
Proof. reflexivity. Qed.

Lemma app_cons (c : ascii) (s t : string) :
  String c s +:+ t = String c (s +:+ t).
Proof. reflexivity. Qed.

Lemma app_empty_r (s : string) : s +:+ "" = s.
Proof. induction s as [|c s IH]; [done|]. by rewrite app_cons, IH. Qed.

Lemma app_assoc_str (s t u : string) : (s +:+ t) +:+ u = s +:+ (t +:+ u).
Proof. induction s as [|c s IH]; [done|]. by rewrite !app_cons, IH. Qed.

Lemma len_app (s t : string) : Str.len (s +:+ t) = Str.len s + Str.len t.
Proof. induction s as [|c s IH]; [done|]. rewrite app_cons. simpl. by rewrite IH. Qed.

Lemma len_zero (s : string) : Str.len s = 0 → s = "".
Proof. by destruct s. Qed.

Lemma truthy_true (s : string) : Str.truthy s = true ↔ s ≠ "".
Proof. by destruct s. Qed.

Lemma truthy_false (s : string) : Str.truthy s = false ↔ s = "".
Proof. by destruct s. Qed.

Lemma app_eq_self (s t : string) : s +:+ t = s → t = "".
Proof.
  intros H. apply (f_equal Str.len) in H. rewrite len_app in H.
  apply len_zero. lia.
Qed.

(** ** Decimal printing of the counter *)

Lemma of_nat_inj (n m : nat) : Str.of_nat n = Str.of_nat m → n = m.
Proof.
  unfold Str.of_nat. intros H. apply DecimalNat.Unsigned.to_uint_inj.
  assert (Some (Nat.to_uint n) = Some (Nat.to_uint m)) as Heq; [|congruence].
  rewrite <- !NilEmpty.usu. by rewrite H.
Qed.

Lemma string_of_uint_decimal (d : Decimal.uint) :
  Str.all_decimal (NilEmpty.string_of_uint d) = true.
Proof. induction d; simpl; auto. Qed.

Lemma of_nat_decimal (n : nat) : Str.all_decimal (Str.of_nat n) = true.
Proof. apply string_of_uint_decimal. Qed.

Lemma to_uint_not_nil (n : nat) : Nat.to_uint n ≠ Decimal.Nil.
Proof.
  intros H. pose proof (DecimalNat.Unsigned.to_of (Nat.to_uint n)) as Hn.
  rewrite DecimalNat.Unsigned.of_to in Hn. rewrite H in Hn at 2.
  simpl in Hn. rewrite H in Hn. discriminate.
Qed.

Lemma of_nat_nonempty (n : nat) : Str.of_nat n ≠ "".
Proof.
  unfold Str.of_nat. pose proof (to_uint_not_nil n) as H.
  destruct (Nat.to_uint n); simpl; congruence.
Qed.

Lemma len_of_nat_pos (n : nat) : 0 < Str.len (Str.of_nat n).
Proof.
  pose proof (of_nat_nonempty n). destruct (Str.of_nat n); simpl; [done|lia].
Qed.

Lemma of_nat_1 : Str.of_nat 1 = "1".
Proof. reflexivity. Qed.

Lemma app_of_nat_neq (b : string) (k : nat) : b +:+ Str.of_nat k ≠ b.
Proof. intros H%app_eq_self. by apply of_nat_nonempty in H. Qed.

Lemma app_of_nat_inj (b : string) (j k : nat) :
  b +:+ Str.of_nat j = b +:+ Str.of_nat k → j = k.
Proof. intros H%(inj (String.app b)). by apply of_nat_inj. Qed.

(** ** The collision loop *)

Lemma while_taken_free (fuel : nat) (b u : string) (c : nat) (reg : registry) :
  u ∉ reg → while_taken fuel b u c reg = Some u.
Proof. intros Hu. destruct fuel; simpl; by rewrite decide_False. Qed.

Lemma while_taken_step (fuel : nat) (b u : string) (c : nat) (reg : registry) :
  u ∈ reg →
  while_taken (S fuel) b u c reg
  = while_taken fuel b (b +:+ Str.of_nat c) (S c) reg.
Proof. intros Hu. simpl. by rewrite decide_True. Qed.

Lemma while_taken_out (b u : string) (c : nat) (reg : registry) :
  u ∈ reg → while_taken 0 b u c reg = None.
Proof. intros Hu. simpl. by rewrite decide_True. Qed.

(** The loop returns the first name, in the order [username], [base 1],
    [base 2], ..., that is not in the registry. *)
Lemma while_taken_sound (fuel : nat) (b u : string) (c : nat)
    (reg : registry) (r : string) :
  while_taken fuel b u c reg = Some r →
  (r ∉ reg) ∧
  (((u ∉ reg) ∧ r = u) ∨
   (u ∈ reg ∧ ∃ k, c ≤ k ∧ r = b +:+ Str.of_nat k ∧
      ∀ j, c ≤ j < k → (b +:+ Str.of_nat j) ∈ reg)).
Proof.
  revert u c. induction fuel as [|fuel IH]; intros u c.
  - destruct (decide (u ∈ reg)) as [Hu|Hu].
    + by rewrite while_taken_out.
    + rewrite while_taken_free by done. intros [= <-]. auto.
  - destruct (decide (u ∈ reg)) as [Hu|Hu].
    + rewrite while_taken_step by done. intros Hr.
      destruct (IH _ _ Hr) as [Hfree Hcase]. split; [done|]. right.
      split; [done|]. destruct Hcase as [[Hc ->]|[Hc (k & Hk & -> & Hlt)]].
      * exists c. split; [lia|]. split; [done|]. intros j Hj. lia.
      * exists k. split; [lia|]. split; [done|]. intros j Hj.
        destruct (decide (j = c)) as [->|Hne]; [done|]. apply Hlt. lia.
    + rewrite while_taken_free by done. intros [= <-]. auto.
Qed.

Lemma while_taken_mono (fuel fuel' : nat) (b u : string) (c : nat)
    (reg : registry) (r : string) :
  while_taken fuel b u c reg = Some r → fuel ≤ fuel' →
  while_taken fuel' b u c reg = Some r.
Proof.
  revert fuel' u c. induction fuel as [|fuel IH]; intros fuel' u c.
  - destruct (decide (u ∈ reg)) as [Hu|Hu].
    + by rewrite while_taken_out.
    + rewrite !while_taken_free by done. done.
  - destruct (decide (u ∈ reg)) as [Hu|Hu].
    + rewrite while_taken_step by done. intros Hr Hle.
      destruct fuel' as [|fuel']; [lia|].
      rewrite while_taken_step by done. apply IH; [done|lia].
    + rewrite !while_taken_free by done. done.
Qed.

(** Pigeonhole: the names already tried form a set [tried] of distinct
    members of the registry, so the loop cannot run more often than the
    registry has elements left. *)
Lemma while_taken_enough (fuel : nat) (b u : string) (c : nat)
    (reg tried : registry) :
  tried ⊆ reg →
  u ∉ tried →
  (∀ k, c ≤ k → (b +:+ Str.of_nat k) ∉ tried) →
  (∀ k, c ≤ k → b +:+ Str.of_nat k ≠ u) →
  size reg ≤ size tried + fuel →
  is_Some (while_taken fuel b u c reg).
Proof.
  revert u c tried. induction fuel as [|fuel IH];
    intros u c tried Hsub Hu Hnew Hne Hsize.
  - destruct (decide (u ∈ reg)) as [Hin|Hin].
    + exfalso.
      assert (size (tried ∪ {[u]}) ≤ size reg) as Hle
        by (apply subseteq_size; set_solver).
      rewrite size_union, size_singleton in Hle by set_solver. lia.
    + rewrite while_taken_free by done. eauto.
  - destruct (decide (u ∈ reg)) as [Hin|Hin].
    + rewrite while_taken_step by done.
      apply (IH _ _ (tried ∪ {[u]})).
      * set_solver.
      * specialize (Hnew c (Nat.le_refl _)). specialize (Hne c (Nat.le_refl _)).
        set_solver.
      * intros k Hk. specialize (Hnew k). specialize (Hne k).
        assert (c ≤ k) as Hck by lia. set_solver.
      * intros k Hk Heq. apply app_of_nat_inj in Heq. lia.
      * rewrite size_union, size_singleton by set_solver. lia.
    + rewrite while_taken_free by done. eauto.
Qed.

Lemma while_taken_total (b : string) (reg : registry) :
  is_Some (while_taken (size reg) b b 1 reg).
Proof.
  apply (while_taken_enough _ _ _ _ _ ∅).
  - set_solver.
  - set_solver.
  - set_solver.
  - intros k _. apply app_of_nat_neq.
  - rewrite size_empty. lia.
Qed.

(** ** [create_login_name] *)

Lemma create_login_name_spec (g m f : string) (reg : registry) :
  ∃ u, create_login_name g m f reg = Some (u, {[u]} ∪ reg) ∧
       (u ∉ reg) ∧
       (((base_name g m f ∉ reg) ∧ u = base_name g m f) ∨
        (base_name g m f ∈ reg ∧
         ∃ k, 1 ≤ k ∧ u = base_name g m f +:+ Str.of_nat k ∧
              ∀ j, 1 ≤ j < k → (base_name g m f +:+ Str.of_nat j) ∈ reg)).
Proof.
  unfold create_login_name.
  destruct (while_taken_total (base_name g m f) reg) as [u Hu].
  rewrite Hu. exists u. split; [done|]. by apply while_taken_sound in Hu.
Qed.

Lemma create_login_name_inv (g m f : string) (reg : registry)
    (u : string) (reg' : registry) :
  create_login_name g m f reg = Some (u, reg') →
  reg' = {[u]} ∪ reg ∧ u ∉ reg.
Proof.
  destruct (create_login_name_spec g m f reg) as (u' & -> & Hu & _).
  by intros [= <- <-].
Qed.

(** ** Colons *)

Lemma colon_free_empty : colon_free "".
Proof. reflexivity. Qed.

Lemma colon_free_cons (c : ascii) (s : string) :
  colon_free (String c s) ↔ c ≠ Char.colon ∧ colon_free s.
Proof.
  unfold colon_free. cbn [Str.mem].
  destruct (Ascii.eqb_spec Char.colon c) as [<-|Hc]; simpl; naive_solver.
Qed.

Lemma colon_free_app (s t : string) :
  colon_free (s +:+ t) ↔ colon_free s ∧ colon_free t.
Proof.
  induction s as [|c s IH].
  - rewrite app_empty_l. split; [by split|by intros [_ ?]].
  - rewrite app_cons, !colon_free_cons, IH. naive_solver.
Qed.

Lemma colon_free_take (n : nat) (s : string) :
  colon_free s → colon_free (Str.take n s).
Proof.
  revert s; induction n as [|n IH]; intros [|c s]; simpl; try done.
  rewrite !colon_free_cons. naive_solver.
Qed.

Lemma char_lower_colon (c : ascii) : Char.lower c = Char.colon → c = Char.colon.
Proof. destruct c as [[] [] [] [] [] [] [] []]; vm_compute; congruence. Qed.

Lemma colon_free_lower (s : string) : colon_free s → colon_free (Str.lower s).
Proof.
  induction s as [|c s IH]; [done|]. simpl. rewrite !colon_free_cons.
  intros [Hc Hs]. split; [|by apply IH]. intros H. by apply char_lower_colon in H.
Qed.

Lemma colon_free_lstrip (s : string) : colon_free s → colon_free (Str.lstrip s).
Proof.
  induction s as [|c s IH]; [done|]. simpl. destruct (Char.isspace c); [|done].
  rewrite colon_free_cons. naive_solver.
Qed.

Lemma colon_free_rstrip (s : string) : colon_free s → colon_free (Str.rstrip s).
Proof.
  induction s as [|c s IH]; [done|]. simpl. rewrite colon_free_cons.
  intros [Hc Hs]. specialize (IH Hs). destruct (Str.rstrip s) as [|d r].
  - destruct (Char.isspace c); [done|]. by rewrite colon_free_cons.
  - rewrite colon_free_cons. done.
Qed.

Lemma colon_free_strip (s : string) : colon_free s → colon_free (Str.strip s).
Proof. intros H. by apply colon_free_rstrip, colon_free_lstrip. Qed.

Lemma colon_free_decimal (s : string) :
  Str.all_decimal s = true → colon_free s.
Proof.
  induction s as [|c s IH]; [done|]. simpl. rewrite andb_true_iff.
  intros [Hc Hs]. rewrite colon_free_cons. split; [|by apply IH].
  intros ->. discriminate.
Qed.

Lemma colon_free_of_nat (k : nat) : colon_free (Str.of_nat k).
Proof. apply colon_free_decimal, of_nat_decimal. Qed.

Lemma split_go_colon_free (s : string) :
  colon_free (Str.split_go Char.colon s).1 ∧
  Forall colon_free (Str.split_go Char.colon s).2.
Proof.
  induction s as [|c s [IH1 IH2]]; [by split|]. simpl.
  destruct (Str.split_go Char.colon s) as [p ps]. simpl in *.
  destruct (Ascii.eqb_spec c Char.colon) as [->|Hc]; simpl.
  - split; [done|]. by constructor.
  - split; [|done]. by rewrite colon_free_cons.
Qed.

Lemma split_colon_free (s : string) : Forall colon_free (Str.split Char.colon s).
Proof.
  unfold Str.split. pose proof (split_go_colon_free s) as [H1 H2].
  destruct (Str.split_go Char.colon s). by constructor.
Qed.

Lemma split_app_colon (a rest : string) :
  colon_free a →
  Str.split Char.colon (a +:+ ":" +:+ rest) = a :: Str.split Char.colon rest.
Proof.
  unfold Str.split. induction a as [|c a IH]; intros Ha.
  - rewrite app_empty_l. change (":" +:+ rest) with (String Char.colon rest).
    simpl. by destruct (Str.split_go Char.colon rest).
  - apply colon_free_cons in Ha as [Hc Ha]. specialize (IH Ha).
    rewrite app_cons. simpl.
    destruct (Str.split_go Char.colon (a +:+ ":" +:+ rest)) as [p ps].
    destruct (Str.split_go Char.colon rest) as [q qs].
    destruct (Ascii.eqb_spec c Char.colon) as [->|_]; [done|].
    by simplify_eq.
Qed.

Lemma split_first (s : string) :
  ∃ p ps, Str.split Char.colon s = p :: ps.
Proof. unfold Str.split. destruct (Str.split_go Char.colon s). eauto. Qed.

Lemma parts_colon_free (raw : string) : Forall colon_free (parts_of raw).
Proof.
  unfold parts_of. apply Forall_fmap.
  eapply Forall_impl; [apply split_colon_free|].
  intros s Hs. by apply colon_free_strip.
Qed.

Lemma nth_colon_free (i : nat) (l : list string) :
  Forall colon_free l → colon_free (nth i l "").
Proof.
  intros H. revert i.
  induction H as [|x l Hx Hl IH]; intros [|i]; simpl; auto using colon_free_empty.
Qed.

Lemma login_of_output_line (r : ParsedRecord) (u : string) :
  colon_free (user_id r) → colon_free u → login_of (output_line r u) = u.
Proof.
  intros Hid Hu. unfold login_of, output_line.
  rewrite (split_app_colon _ _ Hid), (split_app_colon _ _ Hu). done.
Qed.

(** ** [parse_line] *)

(** The three ways out of the loop body, with what each one knows. *)
Lemma parse_line_outcome (raw : string) :
  let line := Str.strip raw in
  let parts := parts_of raw in
  match parse_line raw with
  | Accepted r =>
      acceptance_condition Str.isdigit raw = true ∧
      user_id r = nth 0 parts "" ∧ given_name r = nth 1 parts "" ∧
      surname r = surname_part parts ∧
      ((length parts = 4 ∧ middle_name r = "" ∧ surname r = nth 2 parts "" ∧
        department r = nth 3 parts "") ∨
       (length parts = 5 ∧ middle_name r = nth 2 parts "" ∧
        surname r = nth 3 parts "" ∧ department r = nth 4 parts "") ∨
       (5 < length parts ∧ middle_name r = nth 2 parts "" ∧
        surname r = nth 3 parts "" ∧
        department r = Str.join ":" (drop 4 parts)))
  | InvalidId id line' =>
      acceptance_condition Str.isdigit raw = false ∧
      warning_condition Str.isdigit raw = true ∧
      id = nth 0 parts "" ∧ line' = line
  | Discarded =>
      acceptance_condition Str.isdigit raw = false ∧
      warning_condition Str.isdigit raw = false
  end.
Proof.
  unfold parse_line, acceptance_condition, warning_condition, surname_part,
    parts_of.
  generalize (map Str.strip (Str.split Char.colon (Str.strip raw))).
  intros parts. cbv zeta. rewrite (Nat.leb_antisym (length parts) 4).
  destruct (Str.truthy (Str.strip raw)); cbn [andb negb]; [|by auto].
  destruct (Nat.ltb_spec (length parts) 4) as [Hlt|Hge]; cbn [andb negb];
    [by auto|].
  destruct (Str.isdigit (nth 0 parts "")) eqn:Hid; cbn [andb negb];
    [|by auto].
  destruct (Nat.eqb_spec (length parts) 5) as [H5|H5].
  { destruct (Nat.eqb_spec (length parts) 4) as [H4|H4]; [lia|].
    destruct (Str.truthy (Str.strip (nth 3 parts ""))) eqn:Hs;
      cbn [andb negb]; [|by auto].
    split_and!; [done..|]. right; left. done. }
  destruct (Nat.eqb_spec (length parts) 4) as [H4|H4].
  { destruct (Str.truthy (Str.strip (nth 2 parts ""))) eqn:Hs;
      cbn [andb negb]; [|by auto].
    repeat split; auto. }
  destruct (Nat.ltb_spec 5 (length parts)) as [H6|H6]; [|lia].
  destruct (Str.truthy (Str.strip (nth 3 parts ""))) eqn:Hs;
    cbn [andb negb]; [|by auto].
  split_and!; [done..|]. right; right. done.
Qed.

Lemma accepted_Some (raw : string) (r : ParsedRecord) :
  accepted raw = Some r ↔ parse_line raw = Accepted r.
Proof.
  unfold accepted. destruct (parse_line raw); split; intros H; by simplify_eq.
Qed.

Lemma accepted_plain (raw : string) (r : ParsedRecord) :
  accepted raw = Some r → plain_fields r.
Proof.
  intros H%accepted_Some. pose proof (parse_line_outcome raw) as Ho.
  rewrite H in Ho. cbv zeta in Ho.
  destruct Ho as (_ & Hid & Hg & _ & Hcases).
  pose proof (parts_colon_free raw) as Hp.
  unfold plain_fields. rewrite Hid, Hg.
  destruct Hcases as [(_ & -> & -> & _)|[(_ & -> & -> & _)|(_ & -> & -> & _)]];
    auto using nth_colon_free, colon_free_empty.
Qed.

Lemma file_records_plain (fs : file_system) (file_path : string) :
  Forall plain_fields (file_records fs file_path).
Proof.
  unfold file_records. apply Forall_forall. intros r Hr.
  apply list_elem_of_omap in Hr as (raw & _ & Hacc). by eapply accepted_plain.
Qed.

Lemma accepted_records_plain (fs : file_system) (files : list string) :
  Forall plain_fields (accepted_records fs files).
Proof.
  unfold accepted_records. apply Forall_forall. intros r Hr.
  apply list_elem_of_bind in Hr as (p & Hr & _).
  pose proof (file_records_plain fs p) as H.
  by rewrite Forall_forall in H; apply H.
Qed.

(** ** Logins are colon-free *)

Lemma initials_colon_free (g m : string) :
  colon_free g → colon_free m → colon_free (initials g m).
Proof.
  intros Hg Hm. unfold initials.
  destruct (Str.truthy m); [apply colon_free_app; split|];
    auto using colon_free_lower, colon_free_take.
Qed.

Lemma base_name_colon_free (g m f : string) :
  colon_free g → colon_free m → colon_free f → colon_free (base_name g m f).
Proof.
  intros Hg Hm Hf. unfold base_name.
  apply colon_free_take, colon_free_lower, colon_free_app.
  auto using initials_colon_free.
Qed.

Lemma login_colon_free (g m f : string) (reg : registry) (u : string)
    (reg' : registry) :
  colon_free g → colon_free m → colon_free f →
  create_login_name g m f reg = Some (u, reg') → colon_free u.
Proof.
  intros Hg Hm Hf Hc.
  destruct (create_login_name_spec g m f reg) as (u' & Heq & _ & Hcase).
  rewrite Heq in Hc. simplify_eq.
  pose proof (base_name_colon_free g m f Hg Hm Hf) as Hb.
  destruct Hcase as [[_ ->]|[_ (k & _ & -> & _)]]; [done|].
  apply colon_free_app. auto using colon_free_of_nat.
Qed.

(** ** Sequences of calls *)

Lemma assign_logins_spec (rs : list ParsedRecord) (reg : registry) :
  ∃ us, assign_logins rs reg = Some (us, list_to_set us ∪ reg) ∧
        length us = length rs ∧ NoDup us ∧ (∀ u, u ∈ us → u ∉ reg) ∧
        (Forall plain_fields rs → Forall colon_free us).
Proof.
  revert reg. induction rs as [|r rs IH]; intros reg.
  - exists []. simpl. split_and!; try done.
    + f_equal. f_equal. set_solver.
    + constructor.
    + set_solver.
  - simpl.
    destruct (create_login_name_spec (given_name r) (middle_name r)
                (surname r) reg) as (u & Hcall & Hu & _).
    rewrite Hcall.
    destruct (IH ({[u]} ∪ reg)) as (us & -> & Hlen & Hnd & Hfresh & Hplain).
    exists (u :: us). split_and!.
    + f_equal. f_equal. set_solver.
    + simpl. by rewrite Hlen.
    + constructor; [|done]. intros Hin. apply Hfresh in Hin. set_solver.
    + intros v [->|Hv]%elem_of_cons; [done|]. apply Hfresh in Hv. set_solver.
    + intros Hall. apply Forall_cons in Hall as [(_ & Hg & Hm & Hs) Hall].
      constructor; [|by apply Hplain].
      exact (login_colon_free _ _ _ _ _ _ Hg Hm Hs Hcall).
Qed.

Lemma assign_logins_app (rs1 rs2 : list ParsedRecord) (reg : registry) :
  assign_logins (rs1 ++ rs2) reg =
  match assign_logins rs1 reg with
  | Some (us, reg') =>
      match assign_logins rs2 reg' with
      | Some (vs, reg'') => Some (us ++ vs, reg'')
      | None => None
      end
  | None => None
  end.
Proof.
  revert reg. induction rs1 as [|r rs1 IH]; intros reg; simpl.
  - by destruct (assign_logins rs2 reg) as [[]|].
  - destruct (create_login_name _ _ _ reg) as [[u reg']|]; [|done].
    rewrite IH. destruct (assign_logins rs1 reg') as [[us reg'']|]; [|done].
    by destruct (assign_logins rs2 reg'') as [[]|].
Qed.

Lemma assign_logins_length (rs : list ParsedRecord) (reg : registry)
    (us : list string) (reg' : registry) :
  assign_logins rs reg = Some (us, reg') → length us = length rs.
Proof.
  destruct (assign_logins_spec rs reg) as (us' & -> & Hlen & _).
  by intros [= <- _].
Qed.

Lemma omap_accepted_cons (raw : string) (lines : list string) :
  omap accepted (raw :: lines) =
  match parse_line raw with
  | Accepted r => r :: omap accepted lines
  | _ => omap accepted lines
  end.
Proof. cbn [omap list_omap]. unfold accepted at 1. by destruct (parse_line raw). Qed.

Lemma bind_warning_cons (raw : string) (lines : list string) :
  (raw :: lines) ≫= warning_of =
  match parse_line raw with
  | InvalidId id line => warning_message id line :: lines ≫= warning_of
  | _ => lines ≫= warning_of
  end.
Proof.
  cbn [mbind list_bind]. unfold warning_of at 1. by destruct (parse_line raw).
Qed.

(** The loops of [read_input_files] do what the parse of the lines and the
    calls of [create_login_name] on the accepted records do. *)
Lemma for_lines_assign (lines : list string) (st : run) :
  for_lines lines st =
  match assign_logins (omap accepted lines) (existing_logins st) with
  | Some (us, reg') =>
      Some {| combined_records :=
                combined_records st ++
                zip_with output_line (omap accepted lines) us;
              existing_logins := reg';
              stderr := stderr st ++ (lines ≫= warning_of) |}
  | None => None
  end.
Proof.
  revert st. induction lines as [|raw lines IH]; intros st.
  - simpl. destruct st. simpl. by rewrite !app_nil_r.
  - rewrite omap_accepted_cons, bind_warning_cons.
    cbn [for_lines]. unfold process_line.
    destruct (parse_line raw) as [|id line|r].
    + rewrite IH. done.
    + rewrite IH. cbn [combined_records existing_logins stderr].
      destruct (assign_logins _ _) as [[us reg']|]; [|done].
      by rewrite <- (assoc_L (++)).
    + cbn [assign_logins].
      destruct (create_login_name _ _ _ _) as [[u reg']|]; [|done].
      rewrite IH. cbn [combined_records existing_logins stderr].
      destruct (assign_logins _ _) as [[us reg'']|]; [|done].
      cbn [zip_with app]. by rewrite <- (assoc_L (++)).
Qed.

Lemma read_file_assign (fs : file_system) (file_path : string) (st : run) :
  read_file fs file_path st =
  match assign_logins (file_records fs file_path) (existing_logins st) with
  | Some (us, reg') =>
      Some {| combined_records :=
                combined_records st ++
                zip_with output_line (file_records fs file_path) us;
              existing_logins := reg';
              stderr := stderr st ++ file_stderr fs file_path |}
  | None => None
  end.
Proof.
  unfold read_file, file_records, file_stderr.
  destruct (fs file_path) as [e|lines raised]; simpl.
  - unfold report_error. by rewrite app_nil_r.
  - rewrite for_lines_assign.
    destruct (assign_logins _ _) as [[us reg']|]; [|done].
    destruct raised as [e|]; simpl.
    + unfold report_error. simpl. by rewrite <- (assoc_L (++)).
    + by rewrite app_nil_r.
Qed.

Lemma for_files_assign (fs : file_system) (files : list string) (st : run) :
  for_files fs files st =
  match assign_logins (accepted_records fs files) (existing_logins st) with
  | Some (us, reg') =>
      Some {| combined_records :=
                combined_records st ++
                zip_with output_line (accepted_records fs files) us;
              existing_logins := reg';
              stderr := stderr st ++ diagnostics fs files |}
  | None => None
  end.
Proof.
  revert st. induction files as [|p files IH]; intros st.
  - simpl. destruct st. simpl. by rewrite !app_nil_r.
  - unfold accepted_records, diagnostics in *.
    cbn [for_files mbind list_bind]. rewrite read_file_assign.
    rewrite assign_logins_app.
    destruct (assign_logins (file_records fs p) _) as [[us reg']|] eqn:Hus;
      [|done].
    rewrite IH. cbn [combined_records existing_logins stderr].
    destruct (assign_logins _ reg') as [[vs reg'']|]; [|done].
    apply assign_logins_length in Hus.
    rewrite zip_with_app by done. by rewrite <- !(assoc_L (++)).
Qed.

Lemma for_files_app (fs : file_system) (files1 files2 : list string)
    (st : run) :
  for_files fs (files1 ++ files2) st =
  match for_files fs files1 st with
  | Some st' => for_files fs files2 st'
  | None => None
  end.
Proof.
  revert st. induction files1 as [|p files1 IH]; intros st; simpl; [done|].
  destruct (read_file fs p st); [apply IH|done].
Qed.

Lemma logins_of_records (rs : list ParsedRecord) (us : list string) :
  Forall plain_fields rs → Forall colon_free us → length us = length rs →
  login_of <$> zip_with output_line rs us = us.
Proof.
  intros Hrs. revert us. induction Hrs as [|r rs Hr Hrs IH];
    intros [|u us] Hus Hlen; simplify_eq/=; [done|].
  apply Forall_cons in Hus as [Hu Hus]. destruct Hr as (Hid & _).
  rewrite login_of_output_line by done. f_equal. by apply IH.
Qed.

Lemma call_trace_spec (calls : list (string * string * string))
    (reg : registry) :
  ∃ tr, call_trace calls reg = Some tr ∧ length tr = length calls ∧
        Forall (λ ur, ur.1 ∈ ur.2 ∧ reg ⊆ ur.2) tr ∧
        NoDup tr.*1 ∧ (∀ u, u ∈ tr.*1 → u ∉ reg).
Proof.
  revert reg. induction calls as [|[[g m] f] calls IH]; intros reg.
  - exists []. simpl. split_and!; try done; [constructor|set_solver].
  - simpl. destruct (create_login_name_spec g m f reg) as (u & -> & Hu & _).
    destruct (IH ({[u]} ∪ reg)) as (tr & -> & Hlen & Hin & Hnd & Hfresh).
    exists ((u, {[u]} ∪ reg) :: tr). split_and!.
    + done.
    + simpl. by rewrite Hlen.
    + constructor; [simpl; set_solver|].
      eapply Forall_impl; [exact Hin|]. simpl. set_solver.
    + simpl. constructor; [|done]. intros Hx%Hfresh. set_solver.
    + simpl. intros v [->|Hv]%elem_of_cons; [done|].
      apply Hfresh in Hv. set_solver.
Qed.

(** What a whole run leaves behind. *)
Lemma read_input_files_spec (fs : file_system) (files : list string)
    (reg : registry) :
  ∃ us, length us = length (accepted_records fs files) ∧
        NoDup us ∧ (∀ u, u ∈ us → u ∉ reg) ∧ Forall colon_free us ∧
        read_input_files fs files reg =
        Some {| combined_records :=
                  zip_with output_line (accepted_records fs files) us;
                existing_logins := list_to_set us ∪ reg;
                stderr := diagnostics fs files |}.
Proof.
  unfold read_input_files. rewrite for_files_assign. simpl.
  destruct (assign_logins_spec (accepted_records fs files) reg)
    as (us & -> & Hlen & Hnd & Hfresh & Hplain).
  exists us. split_and!; auto using accepted_records_plain.
Qed.

Lemma read_input_files_logins (fs : file_system) (files : list string)
    (reg : registry) :
  ∃ st us, read_input_files fs files reg = Some st ∧
           login_of <$> combined_records st = us ∧
           length us = length (accepted_records fs files) ∧
           combined_records st
           = zip_with output_line (accepted_records fs files) us ∧
           NoDup us ∧ (∀ u, u ∈ us → u ∉ reg) ∧
           existing_logins st = list_to_set us ∪ reg.
Proof.
  destruct (read_input_files_spec fs files reg)
    as (us & Hlen & Hnd & Hfresh & Hcf & ->).
  eexists _, us. split; [done|]. simpl. split_and!; try done.
  apply logins_of_records; auto using accepted_records_plain.
Qed.

(** * The specification's claims *)

(** C1 (global login uniqueness).  In every sequence of calls of
    [create_login_name] on one shared registry, each call returns, every
    returned login is in the registry as its call leaves it, and no two
    calls return the same login.  The same holds for the calls a run of
    [read_input_files] makes over any list of files: the logins in its
    output records are pairwise different and all in the final registry. *)
Theorem login_uniqueness (calls : list (string * string * string))
    (fs : file_system) (files : list string) (reg : registry) :
  (∃ tr, call_trace calls reg = Some tr ∧ length tr = length calls ∧
         Forall (λ ur, ur.1 ∈ ur.2) tr ∧ NoDup tr.*1) ∧
  (∃ st, read_input_files fs files reg = Some st ∧
         length (combined_records st) = length (accepted_records fs files) ∧
         NoDup (login_of <$> combined_records st) ∧
         ∀ u, u ∈ login_of <$> combined_records st → u ∈ existing_logins st).
Proof.
  split.
  - destruct (call_trace_spec calls reg) as (tr & Htr & Hlen & Hin & Hnd & _).
    exists tr. split_and!; try done.
    eapply Forall_impl; [exact Hin|]. by intros ? [? _].
  - destruct (read_input_files_logins fs files reg)
      as (st & us & Hst & Hus & Hlen & Hrec & Hnd & _ & Hreg).
    exists st. rewrite Hus, Hreg. split_and!; try done.
    + by rewrite Hrec, length_zip_with_l_eq.
    + set_solver.
Qed.

(** C5 (collision resolution and where the suffix starts).  With an empty
    registry the line "1234:Jozef:Miloslav:Hurban:Legal" gets the login
    "jmhurban" and the record "1234:jmhurban:Jozef:Miloslav:Hurban:Legal";
    two "Pista::Hufnagel" records get "phufnage" and "phufnage1"; and for
    any two successive calls on an empty registry whose inputs have the
    same base, the first returns the base and the second the base followed
    by "1". *)
Theorem collision_resolution :
  create_login_name "Jozef" "Miloslav" "Hurban" ∅
  = Some ("jmhurban", {["jmhurban"]} ∪ ∅) ∧
  combined_records <$>
    read_input_files (one_file ["1234:Jozef:Miloslav:Hurban:Legal"]) ["in"] ∅
  = Some ["1234:jmhurban:Jozef:Miloslav:Hurban:Legal"] ∧
  combined_records <$>
    read_input_files
      (one_file ["1111:Pista::Hufnagel:Sales"; "2222:Pista::Hufnagel:Sales"])
      ["in"] ∅
  = Some ["1111:phufnage:Pista::Hufnagel:Sales";
          "2222:phufnage1:Pista::Hufnagel:Sales"] ∧
  ∀ g1 m1 f1 g2 m2 f2 : string,
    base_name g1 m1 f1 = base_name g2 m2 f2 →
    ∃ reg1,
      create_login_name g1 m1 f1 ∅ = Some (base_name g1 m1 f1, reg1) ∧
      create_login_name g2 m2 f2 reg1
      = Some (base_name g1 m1 f1 +:+ "1",
              {[base_name g1 m1 f1 +:+ "1"]} ∪ reg1).
Proof.
  split_and!; try (vm_compute; reflexivity).
  intros g1 m1 f1 g2 m2 f2 Hb.
  destruct (create_login_name_spec g1 m1 f1 ∅) as (u & Hu & _ & Hcase).
  destruct Hcase as [[_ ->]|[Hin _]]; [|set_solver].
  eexists. split; [exact Hu|].
  destruct (create_login_name_spec g2 m2 f2 ({[base_name g1 m1 f1]} ∪ ∅))
    as (v & Hv & _ & Hcase).
  rewrite Hv. rewrite <- Hb in Hcase.
  destruct Hcase as [[Hout _]|[_ (k & Hk & -> & Hless)]]; [set_solver|].
  destruct (decide (k = 1)) as [->|Hne]; [by rewrite of_nat_1|].
  exfalso. assert (1 ≤ 1 < k) as H1 by lia. apply Hless in H1.
  pose proof (app_of_nat_neq (base_name g1 m1 f1) 1). set_solver.
Qed.

Lemma collision_resolution_witness :
  ∃ reg1,
    create_login_name "Pista" "" "Hufnagel" ∅ = Some ("phufnage", reg1) ∧
    create_login_name "Pista" "" "Hufnagel" reg1
    = Some ("phufnage1", {["phufnage1"]} ∪ reg1).
Proof.
  destruct collision_resolution as (_ & _ & _ & H).
  apply (H "Pista" "" "Hufnagel" "Pista" "" "Hufnagel"). reflexivity.
Defined.

(** C9 (termination).  For every input and every registry some counter
    from 1 on gives a candidate outside the registry; the loop of
    [create_login_name] returns within as many turns as the registry has
    elements, and with any larger bound returns the same login; so
    [create_login_name] returns on every input, and so does
    [read_input_files] on every list of files. *)
Theorem create_login_name_terminates (g m f : string) (fs : file_system)
    (files : list string) (reg : registry) :
  (∃ k, 1 ≤ k ∧ (base_name g m f +:+ Str.of_nat k) ∉ reg) ∧
  (∃ u, (u ∉ reg) ∧
        (∀ fuel, size reg ≤ fuel →
           while_taken fuel (base_name g m f) (base_name g m f) 1 reg
           = Some u) ∧
        create_login_name g m f reg = Some (u, {[u]} ∪ reg)) ∧
  (∃ st, read_input_files fs files reg = Some st).
Proof.
  split_and!.
  - set (b := base_name g m f).
    destruct (while_taken_enough (size reg) b (b +:+ Str.of_nat 1) 2 reg ∅)
      as [r Hr].
    + set_solver.
    + set_solver.
    + set_solver.
    + intros k Hk Heq%app_of_nat_inj. lia.
    + rewrite size_empty. lia.
    + apply while_taken_sound in Hr as [Hfree Hcase].
      destruct Hcase as [[_ ->]|[_ (k & Hk & -> & _)]].
      * exists 1. by split.
      * exists k. split; [lia|done].
  - destruct (create_login_name_spec g m f reg) as (u & Hu & Hfree & _).
    exists u. split_and!; try done. intros fuel Hfuel.
    unfold create_login_name in Hu.
    destruct (while_taken (size reg) _ _ 1 reg) as [v|] eqn:Hv; [|done].
    simplify_eq. by eapply while_taken_mono.
  - destruct (read_input_files_spec fs files reg) as (us & _ & _ & _ & _ & ->).
    eauto.
Qed.

(** C10 (registry monotonicity).  A call of [create_login_name] leaves the
    registry with exactly one element more, the login it returns, which
    was not there before, and with every element it had.  A run of
    [read_input_files] leaves the registry equal to its initial contents
    together with the logins of the output records. *)
Theorem registry_monotone (g m f : string) (fs : file_system)
    (files : list string) (reg : registry) :
  (∃ u, create_login_name g m f reg = Some (u, {[u]} ∪ reg) ∧
        (u ∉ reg) ∧ reg ⊆ {[u]} ∪ reg ∧
        ({[u]} ∪ reg) ∖ reg = {[u]} ∧
        size ({[u]} ∪ reg) = S (size reg)) ∧
  (∃ st, read_input_files fs files reg = Some st ∧
         reg ⊆ existing_logins st ∧
         existing_logins st
         = reg ∪ list_to_set (login_of <$> combined_records st)).
Proof.
  split.
  - destruct (create_login_name_spec g m f reg) as (u & Hu & Hfree & _).
    exists u. split_and!; try done; [set_solver..|].
    rewrite size_union, size_singleton by set_solver. done.
  - destruct (read_input_files_logins fs files reg)
      as (st & us & Hst & Hus & _ & _ & _ & _ & Hreg).
    exists st. rewrite Hus, Hreg. split_and!; [done|set_solver..].
Qed.

(** C7 (output order, no deduplication).  The list [read_input_files]
    returns has one record per accepted line, built from the accepted
    lines taken file by file in list order and line by line within a file,
    each with the login its call returned; nothing is sorted or dropped.
    The logins are pairwise different and so are the records, also when
    identifiers repeat within a file or across files. *)
Theorem output_order (fs : file_system) (files1 files2 : list string)
    (reg : registry) :
  accepted_records fs (files1 ++ files2)
  = accepted_records fs files1 ++ accepted_records fs files2 ∧
  (∃ st us,
     read_input_files fs (files1 ++ files2) reg = Some st ∧
     length us = length (accepted_records fs (files1 ++ files2)) ∧
     combined_records st
     = zip_with output_line (accepted_records fs (files1 ++ files2)) us ∧
     login_of <$> combined_records st = us ∧
     NoDup us ∧ NoDup (combined_records st)) ∧
  combined_records <$> read_input_files duplicate_id_files ["a"; "b"] ∅
  = Some ["4563:jmurgas:Jozef::Murgas:Development";
          "4563:jmurgas1:Jozef::Murgas:Development";
          "4563:phufnage:Pista::Hufnagel:Sales"].
Proof.
  split_and!.
  - unfold accepted_records. apply bind_app.
  - destruct (read_input_files_logins fs (files1 ++ files2) reg)
      as (st & us & Hst & Hus & Hlen & Hrec & Hnd & _).
    exists st, us. split_and!; try done.
    apply (NoDup_fmap_1 login_of). by rewrite Hus.
  - vm_compute. reflexivity.
Qed.

(** ** One line *)

Lemma process_line_accepted (raw : string) (r : ParsedRecord) (st : run) :
  parse_line raw = Accepted r →
  ∃ login,
    (login ∉ existing_logins st) ∧
    process_line raw st =
    Some {| combined_records := combined_records st ++ [output_line r login];
            existing_logins := {[login]} ∪ existing_logins st;
            stderr := stderr st |}.
Proof.
  intros Hp. unfold process_line. rewrite Hp.
  destruct (create_login_name_spec (given_name r) (middle_name r) (surname r)
              (existing_logins st)) as (u & -> & Hu & _).
  by exists u.
Qed.

Lemma decimal_id_isdigit (s : string) :
  decimal_id s = true → Str.isdigit s = true.
Proof.
  unfold decimal_id, Str.isdigit. rewrite !andb_true_iff.
  intros [Ht Hd]. split; [done|]. clear Ht.
  induction s as [|c s IH]; [done|]. simpl in *.
  apply andb_true_iff in Hd as [Hc Hs]. rewrite IH by done.
  unfold Char.isdigit. by rewrite Hc.
Qed.

(** C4 (field mapping by part count).  For every accepted line the
    identifier is part 0 and the given name part 1; with exactly 4 parts
    the middle name is empty, the surname part 2 and the department
    part 3; with exactly 5 parts they are parts 2, 3 and 4; with more than
    5 parts the middle name is part 2, the surname part 3 and the
    department parts 4 onwards joined by ":"; and the record appended is
    id:login:given:middle:surname:department.  So "1234:Anna:Smith:IT"
    gives a record containing ":Anna::Smith:IT", and
    "9999:Anna:Marketing:Sales:HR:Global" the department "HR:Global". *)
Theorem field_mapping :
  (∀ (raw : string) (r : ParsedRecord) (st : run),
     parse_line raw = Accepted r →
     4 ≤ length (parts_of raw) ∧
     user_id r = nth 0 (parts_of raw) "" ∧
     given_name r = nth 1 (parts_of raw) "" ∧
     (length (parts_of raw) = 4 →
        middle_name r = "" ∧ surname r = nth 2 (parts_of raw) "" ∧
        department r = nth 3 (parts_of raw) "") ∧
     (length (parts_of raw) = 5 →
        middle_name r = nth 2 (parts_of raw) "" ∧
        surname r = nth 3 (parts_of raw) "" ∧
        department r = nth 4 (parts_of raw) "") ∧
     (5 < length (parts_of raw) →
        middle_name r = nth 2 (parts_of raw) "" ∧
        surname r = nth 3 (parts_of raw) "" ∧
        department r = Str.join ":" (drop 4 (parts_of raw))) ∧
     ∃ login st',
       process_line raw st = Some st' ∧
       combined_records st' =
       combined_records st ++
       [user_id r +:+ ":" +:+ login +:+ ":" +:+ given_name r +:+ ":" +:+
        middle_name r +:+ ":" +:+ surname r +:+ ":" +:+ department r]) ∧
  (parse_line "1234:Anna:Smith:IT"
   = Accepted {| user_id := "1234"; given_name := "Anna"; middle_name := "";
                 surname := "Smith"; department := "IT" |} ∧
   ∃ rec, combined_records <$> process_line "1234:Anna:Smith:IT" empty_run
          = Some [rec] ∧
          Str.contains ":Anna::Smith:IT" rec = true) ∧
  (parse_line "9999:Anna:Marketing:Sales:HR:Global"
   = Accepted {| user_id := "9999"; given_name := "Anna";
                 middle_name := "Marketing"; surname := "Sales";
                 department := "HR:Global" |} ∧
   combined_records <$>
     process_line "9999:Anna:Marketing:Sales:HR:Global" empty_run
   = Some ["9999:amsales:Anna:Marketing:Sales:HR:Global"]).
Proof.
  split_and!.
  - intros raw r st Hp. pose proof (parse_line_outcome raw) as Ho.
    rewrite Hp in Ho. cbv zeta in Ho.
    destruct Ho as (_ & Hid & Hg & _ & Hcases).
    destruct (process_line_accepted raw r st Hp) as (login & _ & Hpl).
    split_and!; try done.
    + destruct Hcases as [(? & _)|[(? & _)|(? & _)]]; lia.
    + intros H4. destruct Hcases as [(_ & ?)|[(? & _)|(? & _)]]; [done|lia..].
    + intros H5. destruct Hcases as [(? & _)|[(_ & ?)|(? & _)]]; [lia|done|lia].
    + intros H6. destruct Hcases as [(? & _)|[(? & _)|(_ & ?)]]; [lia..|done].
    + exists login. eexists. split; [exact Hpl|done].
  - vm_compute. reflexivity.
  - eexists. split; vm_compute; reflexivity.
  - vm_compute. reflexivity.
  - vm_compute. reflexivity.
Qed.

Lemma field_mapping_witness :
  middle_name {| user_id := "1234"; given_name := "Anna"; middle_name := "";
                 surname := "Smith"; department := "IT" |} = "" ∧
  nth 2 (parts_of "1234:Anna:Smith:IT") "" = "Smith" ∧
  nth 3 (parts_of "1234:Anna:Smith:IT") "" = "IT".
Proof.
  destruct field_mapping as (H & _).
  destruct (H "1234:Anna:Smith:IT"
              {| user_id := "1234"; given_name := "Anna"; middle_name := "";
                 surname := "Smith"; department := "IT" |}
              empty_run) as (_ & _ & _ & H4 & _).
  - vm_compute. reflexivity.
  - destruct H4 as (Hm & Hs & Hd).
    + vm_compute. reflexivity.
    + simpl in Hs, Hd. auto.
Defined.

(** C3 as stated fails on the code.  The line whose identifier is the
    superscript digit U+00B2 is not made of decimal digits, yet
    [str.isdigit] takes it and the line produces a record; and the line
    "abc:John" has a non-digit identifier, yet it leaves the loop at the
    part count, before the identifier is looked at, and prints nothing. *)
Lemma line_acceptance_counterexample :
  (acceptance_condition decimal_id superscript_line = false ∧
   combined_records <$> process_line superscript_line empty_run
   = Some [String superscript_two ":asmith:Anna::Smith:IT"]) ∧
  (decimal_id (nth 0 (parts_of "abc:John") "") = false ∧
   process_line "abc:John" empty_run = Some empty_run).
Proof. split; split; vm_compute; reflexivity. Qed.

(** C3 (per-line acceptance), amended.  A raw line adds exactly one record
    if it is non-empty after trimming, splits on ":" into at least 4
    trimmed parts, has a first part that [str.isdigit] accepts (non-empty,
    every character a decimal digit or one of the superscript digits), and
    has a surname part (part 2 for 4 parts, part 3 otherwise) that is
    non-empty after trimming; otherwise it adds no record and leaves the
    registry as it was.  Every line that meets the condition with a first
    part of decimal digits only is among the accepted ones.  A warning with the identifier and the trimmed
    line is printed exactly for the lines that are non-empty after
    trimming, have at least 4 parts and a first part that [str.isdigit]
    rejects; no other line prints anything. *)
Theorem line_acceptance (raw : string) (st : run) :
  implb (acceptance_condition decimal_id raw)
        (acceptance_condition Str.isdigit raw) = true ∧
  ∃ st', process_line raw st = Some st' ∧
    if acceptance_condition Str.isdigit raw
    then ∃ r login,
           parse_line raw = Accepted r ∧
           combined_records st' = combined_records st ++ [output_line r login] ∧
           length (combined_records st') = S (length (combined_records st)) ∧
           stderr st' = stderr st
    else combined_records st' = combined_records st ∧
         existing_logins st' = existing_logins st ∧
         stderr st' =
         if warning_condition Str.isdigit raw
         then stderr st ++
              ["[Warning] Invalid non-numeric ID '" +:+
               nth 0 (parts_of raw) "" +:+ "' in line: " +:+
               Str.strip raw +:+ ". Skipping..." +:+ newline]
         else stderr st.
Proof.
  split.
  { unfold acceptance_condition.
    destruct (decimal_id (nth 0 (parts_of raw) "")) eqn:Hid.
    - rewrite (decimal_id_isdigit _ Hid). apply implb_same.
    - by rewrite andb_false_r. }
  pose proof (parse_line_outcome raw) as Ho. cbv zeta in Ho.
  destruct (parse_line raw) as [|id line|r] eqn:Hp.
  - destruct Ho as [-> ->]. exists st. unfold process_line. by rewrite Hp.
  - destruct Ho as (-> & -> & -> & ->). unfold process_line. rewrite Hp.
    eexists. split; [done|]. done.
  - destruct Ho as (-> & _).
    destruct (process_line_accepted raw r st Hp) as (login & _ & ->).
    eexists. split; [done|]. exists r, login. simpl.
    split_and!; try done. rewrite length_app. simpl. lia.
Qed.

(** ** One file *)

Lemma for_lines_total (lines : list string) (st : run) :
  ∃ st' us, for_lines lines st = Some st' ∧
            length us = length (omap accepted lines) ∧
            combined_records st' =
            combined_records st ++ zip_with output_line (omap accepted lines) us ∧
            existing_logins st' = list_to_set us ∪ existing_logins st ∧
            stderr st' = stderr st ++ (lines ≫= warning_of).
Proof.
  rewrite for_lines_assign.
  destruct (assign_logins_spec (omap accepted lines) (existing_logins st))
    as (us & -> & Hlen & _).
  by eexists _, us.
Qed.

Lemma for_files_total (fs : file_system) (files : list string) (st : run) :
  ∃ st' us, for_files fs files st = Some st' ∧
            length us = length (accepted_records fs files) ∧
            combined_records st' =
            combined_records st ++
            zip_with output_line (accepted_records fs files) us ∧
            existing_logins st' = list_to_set us ∪ existing_logins st ∧
            stderr st' = stderr st ++ diagnostics fs files.
Proof.
  rewrite for_files_assign.
  destruct (assign_logins_spec (accepted_records fs files) (existing_logins st))
    as (us & -> & Hlen & _).
  by eexists _, us.
Qed.

(** * Further properties of the code *)

(** ** Trimming *)

Lemma lstrip_spaces (ws s : string) :
  all_space ws = true → Str.lstrip (ws +:+ s) = Str.lstrip s.
Proof.
  induction ws as [|c ws IH]; [done|]. cbn [all_space].
  rewrite andb_true_iff. intros [Hc Hws]. rewrite app_cons.
  cbn [Str.lstrip]. rewrite Hc. by apply IH.
Qed.

Lemma rstrip_all_space (ws : string) :
  all_space ws = true → Str.rstrip ws = "".
Proof.
  induction ws as [|c ws IH]; [done|]. simpl. rewrite andb_true_iff.
  intros [Hc Hws]. by rewrite (IH Hws), Hc.
Qed.

Lemma rstrip_empty_all_space (s : string) :
  Str.rstrip s = "" → all_space s = true.
Proof.
  induction s as [|c s IH]; [done|]. simpl.
  destruct (Str.rstrip s) as [|d r]; [|done].
  destruct (Char.isspace c); [|done]. intros _. by rewrite IH.
Qed.

Lemma rstrip_spaces (s ws : string) :
  all_space ws = true → Str.rstrip (s +:+ ws) = Str.rstrip s.
Proof.
  intros Hws. induction s as [|c s IH].
  - rewrite app_empty_l. by apply rstrip_all_space.
  - rewrite app_cons. simpl. by rewrite IH.
Qed.

Lemma lstrip_empty_all_space (s : string) :
  Str.lstrip s = "" → all_space s = true.
Proof.
  induction s as [|c s IH]; [done|]. simpl.
  destruct (Char.isspace c); [|done]. intros H. by rewrite IH.
Qed.

Lemma all_space_app (s t : string) :
  all_space (s +:+ t) = all_space s && all_space t.
Proof.
  induction s as [|c s IH]; [done|]. rewrite app_cons. simpl.
  by rewrite IH, andb_assoc.
Qed.

Lemma lstrip_app_nonempty (s t : string) :
  Str.lstrip s ≠ "" → Str.lstrip (s +:+ t) = Str.lstrip s +:+ t.
Proof.
  induction s as [|c s IH]; [done|]. rewrite app_cons.
  cbn [Str.lstrip]. destruct (Char.isspace c); [apply IH|].
  by rewrite app_cons.
Qed.

Lemma strip_spaces (ws1 s ws2 : string) :
  all_space ws1 = true → all_space ws2 = true →
  Str.strip (ws1 +:+ s +:+ ws2) = Str.strip s.
Proof.
  intros H1 H2. unfold Str.strip. rewrite lstrip_spaces by done.
  destruct (Str.lstrip s) as [|c r] eqn:Hs.
  - apply lstrip_empty_all_space in Hs.
    assert (all_space (s +:+ ws2) = true) as Hall
      by (by rewrite all_space_app, Hs, H2).
    assert (all_space (Str.lstrip (s +:+ ws2)) = true) as Hl.
    { clear -Hall. induction (s +:+ ws2) as [|c x IH]; [done|]. simpl in *.
      apply andb_true_iff in Hall as [Hc Hx]. rewrite Hc. by apply IH. }
    by rewrite (rstrip_all_space _ Hl).
  - rewrite lstrip_app_nonempty by (by rewrite Hs).
    rewrite Hs. by apply rstrip_spaces.
Qed.

(** A string that is empty or starts with a character that is no
    whitespace is left alone by [lstrip]. *)
Lemma lstrip_fixed (s : string) :
  match s with "" => True | String c _ => Char.isspace c = false end →
  Str.lstrip s = s.
Proof. destruct s as [|c s]; [done|]. simpl. by intros ->. Qed.

Lemma lstrip_head (s : string) :
  match Str.lstrip s with
  | "" => True
  | String c _ => Char.isspace c = false
  end.
Proof.
  induction s as [|c s IH]; [done|]. simpl.
  by destruct (Char.isspace c) eqn:Hc.
Qed.

Lemma rstrip_head (s : string) :
  match s with "" => True | String c _ => Char.isspace c = false end →
  match Str.rstrip s with
  | "" => True
  | String c _ => Char.isspace c = false
  end.
Proof.
  destruct s as [|c s]; [done|]. simpl. intros Hc.
  destruct (Str.rstrip s); by rewrite ?Hc.
Qed.

Lemma rstrip_idem (s : string) : Str.rstrip (Str.rstrip s) = Str.rstrip s.
Proof.
  induction s as [|c s IH]; [done|]. simpl.
  destruct (Str.rstrip s) as [|d r] eqn:Hr.
  - destruct (Char.isspace c) eqn:Hc; [done|]. simpl. by rewrite Hc.
  - change (Str.rstrip (String c (String d r))) with
      (match Str.rstrip (String d r) with
       | "" => if Char.isspace c then "" else String c ""
       | r' => String c r'
       end).
    by rewrite IH.
Qed.

Lemma strip_idem (s : string) : Str.strip (Str.strip s) = Str.strip s.
Proof.
  unfold Str.strip at 1. rewrite lstrip_fixed.
  - unfold Str.strip. apply rstrip_idem.
  - unfold Str.strip. apply rstrip_head, lstrip_head.
Qed.

Lemma parts_trimmed (raw : string) :
  Forall (λ p, Str.strip p = p) (parts_of raw).
Proof.
  unfold parts_of. apply Forall_fmap, Forall_forall. intros p _.
  apply strip_idem.
Qed.

Lemma nth_trimmed (i : nat) (l : list string) :
  Forall (λ p, Str.strip p = p) l → Str.strip (nth i l "") = nth i l "".
Proof.
  intros H. revert i. induction H as [|x l Hx Hl IH]; intros [|i]; simpl; auto.
Qed.

(** ** More on one line *)

Lemma parse_line_strip (raw raw' : string) :
  Str.strip raw = Str.strip raw' → parse_line raw = parse_line raw'.
Proof. unfold parse_line. by intros ->. Qed.

Lemma acceptance_true (id_test : string → bool) (raw : string) :
  acceptance_condition id_test raw = true ↔
  Str.strip raw ≠ "" ∧ 4 ≤ length (parts_of raw) ∧
  id_test (nth 0 (parts_of raw) "") = true ∧
  Str.strip (surname_part (parts_of raw)) ≠ "".
Proof.
  unfold acceptance_condition. cbv zeta.
  rewrite !andb_true_iff, !truthy_true, Nat.leb_le. naive_solver.
Qed.

Lemma split_single (s : string) :
  colon_free s → Str.split Char.colon s = [s].
Proof.
  unfold Str.split. induction s as [|c s IH]; [done|].
  intros [Hc Hs]%colon_free_cons. specialize (IH Hs). simpl.
  destruct (Str.split_go Char.colon s) as [p ps].
  destruct (Ascii.eqb_spec c Char.colon) as [->|_]; [done|]. by simplify_eq.
Qed.

Lemma split_output_line (r : ParsedRecord) (u : string) :
  plain_fields r → colon_free u →
  Str.split Char.colon (output_line r u) =
  [user_id r; u; given_name r; middle_name r; surname r] ++
  Str.split Char.colon (department r).
Proof.
  intros (Hid & Hg & Hm & Hs) Hu. unfold output_line.
  by rewrite (split_app_colon _ _ Hid), (split_app_colon _ _ Hu),
    (split_app_colon _ _ Hg), (split_app_colon _ _ Hm),
    (split_app_colon _ _ Hs).
Qed.

Lemma count_char_lstrip (c : ascii) (s : string) :
  Char.isspace c = false → count_char c (Str.lstrip s) = count_char c s.
Proof.
  intros Hc. induction s as [|d s IH]; [done|]. simpl.
  destruct (Char.isspace d) eqn:Hd; [|done].
  destruct (Ascii.eqb_spec d c) as [->|_]; [congruence|]. by rewrite IH.
Qed.

Lemma count_char_rstrip (c : ascii) (s : string) :
  Char.isspace c = false → count_char c (Str.rstrip s) = count_char c s.
Proof.
  intros Hc. induction s as [|d s IH]; [done|]. simpl.
  destruct (Str.rstrip s) as [|e r] eqn:Hr.
  - simpl in IH. rewrite <- IH.
    destruct (Char.isspace d) eqn:Hd; [|by rewrite Nat.add_0_r].
    destruct (Ascii.eqb_spec d c) as [->|_]; [congruence|]. done.
  - rewrite <- IH. done.
Qed.

Lemma length_split (c : ascii) (s : string) :
  length (Str.split c s) = S (count_char c s).
Proof.
  unfold Str.split. induction s as [|d s IH]; [done|]. simpl.
  destruct (Str.split_go c s) as [p ps]. simpl in IH.
  destruct (Ascii.eqb d c); simpl; lia.
Qed.

Lemma length_parts_of (raw : string) :
  length (parts_of raw) = S (count_char Char.colon raw).
Proof.
  unfold parts_of, Str.strip.
  by rewrite length_map, length_split, count_char_rstrip, count_char_lstrip.
Qed.

(** X1.  The pieces of a line are as many as its colons plus one, so a
    line with fewer than three colons is never accepted; with exactly
    three it is read as id, given name, surname, department. *)
Theorem accepted_needs_three_colons (raw : string) (r : ParsedRecord) :
  parse_line raw = Accepted r →
  length (parts_of raw) = S (count_char Char.colon raw) ∧
  3 ≤ count_char Char.colon raw ∧
  (count_char Char.colon raw = 3 → middle_name r = "").
Proof.
  intros Hp. pose proof (parse_line_outcome raw) as Ho.
  rewrite Hp in Ho. cbv zeta in Ho. destruct Ho as (_ & _ & _ & _ & Hcases).
  pose proof (length_parts_of raw) as Hlen. split; [done|].
  destruct Hcases as [(? & ? & _)|[(? & _)|(? & _)]]; split; try lia; done.
Qed.

Lemma accepted_needs_three_colons_witness :
  3 ≤ count_char Char.colon "1234:Anna:Smith:IT".
Proof.
  apply (accepted_needs_three_colons "1234:Anna:Smith:IT"
           {| user_id := "1234"; given_name := "Anna"; middle_name := "";
              surname := "Smith"; department := "IT" |}).
  vm_compute. reflexivity.
Defined.

(** X2.  Whitespace before and after a line, the line terminator included,
    never changes what the loop body does with it. *)
Theorem surrounding_whitespace_ignored (ws1 raw ws2 : string) (st : run) :
  all_space ws1 = true → all_space ws2 = true →
  parse_line (ws1 +:+ raw +:+ ws2) = parse_line raw ∧
  process_line (ws1 +:+ raw +:+ ws2) st = process_line raw st.
Proof.
  intros H1 H2.
  assert (parse_line (ws1 +:+ raw +:+ ws2) = parse_line raw) as Hp
    by (apply parse_line_strip; by apply strip_spaces).
  split; [done|]. unfold process_line. by rewrite Hp.
Qed.

Lemma surrounding_whitespace_ignored_witness :
  parse_line ("  " +:+ "1234:Anna:Smith:IT" +:+ newline)
  = parse_line "1234:Anna:Smith:IT".
Proof.
  apply (surrounding_whitespace_ignored "  " "1234:Anna:Smith:IT" newline
           empty_run); reflexivity.
Defined.

(** X3.  The fields of an accepted line: the identifier passes
    [str.isdigit], the surname is not empty, and identifier, given name,
    middle name and surname are trimmed and contain no colon. *)
Theorem accepted_record_invariant (raw : string) (r : ParsedRecord) :
  parse_line raw = Accepted r →
  Str.isdigit (user_id r) = true ∧ surname r ≠ "" ∧
  Forall (λ x, Str.strip x = x ∧ colon_free x)
    [user_id r; given_name r; middle_name r; surname r].
Proof.
  intros Hp. pose proof (parse_line_outcome raw) as Ho.
  rewrite Hp in Ho. cbv zeta in Ho.
  destruct Ho as (Hacc & Hid & Hg & Hs & Hcases).
  apply acceptance_true in Hacc as (_ & _ & Hdig & Hsur).
  pose proof (parts_trimmed raw) as Ht.
  destruct (accepted_plain raw r) as (Cid & Cg & Cm & Cs);
    [by apply accepted_Some|].
  rewrite <- Hs in Hsur. rewrite <- Hid in Hdig.
  assert (Str.strip (surname r) = surname r) as Hst.
  { destruct Hcases as [(_ & _ & -> & _)|[(_ & _ & -> & _)|(_ & _ & -> & _)]];
      by apply nth_trimmed. }
  split; [done|]. split; [congruence|].
  repeat constructor; try done.
  - rewrite Hid. by apply nth_trimmed.
  - rewrite Hg. by apply nth_trimmed.
  - destruct Hcases as [(_ & -> & _)|[(_ & -> & _)|(_ & -> & _)]];
      [done|by apply nth_trimmed..].
Qed.

Lemma accepted_record_invariant_witness :
  Str.isdigit "1234" = true ∧ "Smith" ≠ "" ∧
  Forall (λ x, Str.strip x = x ∧ colon_free x) ["1234"; "Anna"; ""; "Smith"].
Proof.
  apply (accepted_record_invariant " 1234 : Anna :Smith: IT "
           {| user_id := "1234"; given_name := "Anna"; middle_name := "";
              surname := "Smith"; department := "IT" |}).
  vm_compute. reflexivity.
Defined.

(** X4.  Splitting an output record at its colons gives the identifier,
    the login, the given name, the middle name and the surname as its
    first five pieces, followed by the pieces of the department; for a
    line of four or five parts the record has exactly six pieces. *)
Theorem output_record_fields (raw : string) (r : ParsedRecord) (st : run) :
  parse_line raw = Accepted r →
  ∃ login st',
    process_line raw st = Some st' ∧
    combined_records st' = combined_records st ++ [output_line r login] ∧
    Str.split Char.colon (output_line r login) =
    [user_id r; login; given_name r; middle_name r; surname r] ++
    Str.split Char.colon (department r) ∧
    (length (parts_of raw) ≤ 5 →
     Str.split Char.colon (output_line r login) =
     [user_id r; login; given_name r; middle_name r; surname r;
      department r]).
Proof.
  intros Hp. unfold process_line. rewrite Hp.
  destruct (create_login_name (given_name r) (middle_name r) (surname r)
              (existing_logins st)) as [[u reg']|] eqn:Hc.
  2:{ destruct (create_login_name_spec (given_name r) (middle_name r)
                  (surname r) (existing_logins st)) as (? & ? & _).
      congruence. }
  pose proof (accepted_plain raw r) as Hplain.
  rewrite accepted_Some in Hplain. specialize (Hplain Hp).
  assert (colon_free u) as Hu.
  { destruct Hplain as (_ & Hg & Hm & Hs).
    exact (login_colon_free _ _ _ _ _ _ Hg Hm Hs Hc). }
  exists u. eexists. split; [done|]. split; [done|].
  rewrite split_output_line by done. split; [done|].
  intros Hlen. pose proof (parse_line_outcome raw) as Ho.
  rewrite Hp in Ho. cbv zeta in Ho. destruct Ho as (_ & _ & _ & _ & Hcases).
  pose proof (parts_colon_free raw) as Hparts.
  rewrite split_single; [done|].
  destruct Hcases as [(_ & _ & _ & ->)|[(_ & _ & _ & ->)|(? & _)]];
    [by apply nth_colon_free..|lia].
Qed.

Lemma output_record_fields_witness :
  ∃ login st',
    process_line "1234:Anna:Smith:IT" empty_run = Some st' ∧
    combined_records st' = [] ++ [output_line
      {| user_id := "1234"; given_name := "Anna"; middle_name := "";
         surname := "Smith"; department := "IT" |} login] ∧
    Str.split Char.colon (output_line
      {| user_id := "1234"; given_name := "Anna"; middle_name := "";
         surname := "Smith"; department := "IT" |} login) =
    ["1234"; login; "Anna"; ""; "Smith"] ++ Str.split Char.colon "IT" ∧
    (length (parts_of "1234:Anna:Smith:IT") ≤ 5 →
     Str.split Char.colon (output_line
      {| user_id := "1234"; given_name := "Anna"; middle_name := "";
         surname := "Smith"; department := "IT" |} login) =
     ["1234"; login; "Anna"; ""; "Smith"; "IT"]).
Proof.
  apply (output_record_fields "1234:Anna:Smith:IT"
           {| user_id := "1234"; given_name := "Anna"; middle_name := "";
              surname := "Smith"; department := "IT" |} empty_run).
  vm_compute. reflexivity.
Defined.

(** ** An output record read as an input line *)

Lemma rstrip_cons_nonspace (c : ascii) (s : string) :
  Char.isspace c = false → Str.rstrip (String c s) = String c (Str.rstrip s).
Proof. intros Hc. simpl. destruct (Str.rstrip s); by rewrite ?Hc. Qed.

Lemma rstrip_app_nonspace (a : string) (c : ascii) (s : string) :
  Char.isspace c = false →
  Str.rstrip (a +:+ String c s) = a +:+ String c (Str.rstrip s).
Proof.
  intros Hc. induction a as [|x a IH].
  - rewrite !app_empty_l. by apply rstrip_cons_nonspace.
  - rewrite !app_cons.
    change (Str.rstrip (String x (a +:+ String c s))) with
      (match Str.rstrip (a +:+ String c s) with
       | "" => if Char.isspace x then "" else String x ""
       | r' => String x r'
       end).
    rewrite IH. by destruct a.
Qed.

Lemma isdigit_head (s : string) :
  Str.isdigit s = true →
  match s with "" => False | String c _ => Char.isspace c = false end.
Proof.
  destruct s as [|c s]; [done|]. unfold Str.isdigit. simpl.
  rewrite andb_true_iff. intros [Hc _]. revert Hc.
  destruct c as [[] [] [] [] [] [] [] []]; vm_compute; congruence.
Qed.

Lemma rstrip_colon (x y : string) :
  Str.rstrip (x +:+ ":" +:+ y) = x +:+ ":" +:+ Str.rstrip y.
Proof. exact (rstrip_app_nonspace x Char.colon y eq_refl). Qed.

(** The record with its department trimmed on the right. *)
Lemma strip_output_line (r : ParsedRecord) (u : string) :
  Str.isdigit (user_id r) = true →
  Str.strip (output_line r u +:+ newline) =
  output_line {| user_id := user_id r; given_name := given_name r;
                 middle_name := middle_name r; surname := surname r;
                 department := Str.rstrip (department r) |} u.
Proof.
  intros Hid%isdigit_head. unfold Str.strip, output_line.
  rewrite lstrip_fixed.
  2:{ destruct (user_id r); [done|]. by rewrite app_cons. }
  rewrite !app_assoc_str, !rstrip_colon. cbn [user_id given_name middle_name
    surname department]. by rewrite rstrip_spaces.
Qed.

Lemma parts_of_output_line (r : ParsedRecord) (u : string) :
  Str.isdigit (user_id r) = true → plain_fields r → colon_free u →
  parts_of (output_line r u +:+ newline) =
  [Str.strip (user_id r); Str.strip u; Str.strip (given_name r);
   Str.strip (middle_name r); Str.strip (surname r)] ++
  (Str.strip <$> Str.split Char.colon (Str.rstrip (department r))).
Proof.
  intros Hid Hplain Cu. unfold parts_of.
  rewrite strip_output_line by done. rewrite split_output_line; done.
Qed.

Lemma process_line_login (raw : string) (r : ParsedRecord) (st : run) :
  parse_line raw = Accepted r →
  ∃ login,
    colon_free login ∧ (login ∉ existing_logins st) ∧
    process_line raw st =
    Some {| combined_records := combined_records st ++ [output_line r login];
            existing_logins := {[login]} ∪ existing_logins st;
            stderr := stderr st |}.
Proof.
  intros Hp. unfold process_line. rewrite Hp.
  destruct (create_login_name_spec (given_name r) (middle_name r) (surname r)
              (existing_logins st)) as (u & Hc & Hu & _).
  rewrite Hc. exists u. split_and!; try done.
  destruct (accepted_plain raw r) as (_ & Hg & Hm & Hs);
    [by apply accepted_Some|].
  exact (login_colon_free _ _ _ _ _ _ Hg Hm Hs Hc).
Qed.

(** X5.  The output is not input: read back as an input line, an output
    record is dropped silently when it has no middle name, and is
    otherwise accepted with its fields shifted by one, the login taken as
    given name, the given name as middle name and the middle name as
    surname. *)
Theorem output_fed_back (raw : string) (r : ParsedRecord) (st : run) :
  parse_line raw = Accepted r →
  ∃ login st',
    process_line raw st = Some st' ∧
    combined_records st' = combined_records st ++ [output_line r login] ∧
    match parse_line (output_line r login +:+ newline) with
    | Discarded => middle_name r = ""
    | InvalidId _ _ => False
    | Accepted r' =>
        middle_name r ≠ "" ∧ user_id r' = user_id r ∧
        given_name r' = Str.strip login ∧
        middle_name r' = given_name r ∧ surname r' = middle_name r
    end.
Proof.
  intros Hp. destruct (process_line_login raw r st Hp) as (u & Cu & _ & Hpl).
  exists u. eexists. split; [exact Hpl|]. split; [done|].
  destruct (accepted_record_invariant raw r Hp) as (Hdig & _ & Hall).
  apply Forall_cons in Hall as [[Tid Cid] Hall].
  apply Forall_cons in Hall as [[Tg Cg] Hall].
  apply Forall_cons in Hall as [[Tm Cm] Hall].
  apply Forall_cons in Hall as [[Ts Cs] _].
  pose proof (parts_of_output_line r u Hdig (conj Cid (conj Cg (conj Cm Cs))) Cu)
    as Hparts.
  rewrite Tid, Tg, Tm, Ts in Hparts.
  destruct (split_first (Str.rstrip (department r))) as (d & ds & Hd).
  rewrite Hd in Hparts. cbn [fmap list_fmap app] in Hparts.
  pose proof (parse_line_outcome (output_line r u +:+ newline)) as Ho.
  cbv zeta in Ho. rewrite Hparts in Ho.
  assert (Str.truthy (Str.strip (output_line r u +:+ newline)) = true) as Hne.
  { rewrite strip_output_line by done. unfold output_line. simpl.
    apply isdigit_head in Hdig. destruct (user_id r); [done|].
    by rewrite app_cons. }
  unfold acceptance_condition, warning_condition, surname_part in Ho.
  cbv zeta in Ho. rewrite Hparts, Hne in Ho.
  cbn [length nth Nat.leb Nat.eqb andb negb] in Ho. rewrite Hdig, Tm in Ho.
  cbn [andb negb] in Ho.
  destruct (parse_line (output_line r u +:+ newline)) as [|id line|r'].
  - destruct Ho as [Ht _]. by apply truthy_false in Ht.
  - by destruct Ho as (_ & ? & _).
  - destruct Ho as (Ht & Hid' & Hg' & _ & Hcases).
    apply truthy_true in Ht. split; [done|]. split; [done|]. split; [done|].
    destruct Hcases as [(? & _)|[(? & _)|(_ & -> & -> & _)]];
      [simpl in *; lia..|done].
Qed.

Lemma output_fed_back_witness :
  ∃ login st',
    process_line "1234:Anna:Smith:IT" empty_run = Some st' ∧
    combined_records st' = [] ++ [output_line
      {| user_id := "1234"; given_name := "Anna"; middle_name := "";
         surname := "Smith"; department := "IT" |} login] ∧
    match parse_line (output_line
      {| user_id := "1234"; given_name := "Anna"; middle_name := "";
         surname := "Smith"; department := "IT" |} login +:+ newline) with
    | Discarded => "" = ""
    | InvalidId _ _ => False
    | Accepted r' =>
        "" ≠ "" ∧ user_id r' = "1234" ∧ given_name r' = Str.strip login ∧
        middle_name r' = "Anna" ∧ surname r' = ""
    end.
Proof.
  apply (output_fed_back "1234:Anna:Smith:IT"
           {| user_id := "1234"; given_name := "Anna"; middle_name := "";
              surname := "Smith"; department := "IT" |} empty_run).
  vm_compute. reflexivity.
Defined.

(** ** More on the generator *)

Lemma candidate_inj (b : string) (j k : nat) :
  candidate b j = candidate b k → j = k.
Proof.
  destruct j as [|j], k as [|k]; simpl; intros H; try done.
  - symmetry in H. by apply app_of_nat_neq in H.
  - by apply app_of_nat_neq in H.
  - by apply app_of_nat_inj in H.
Qed.

Lemma candidates_in_registry (b : string) (k : nat) (reg : registry) :
  (∀ j, j < k → candidate b j ∈ reg) → k ≤ size reg.
Proof.
  intros Hin.
  assert (NoDup (candidate b <$> seq 0 k)) as Hnd.
  { apply NoDup_fmap_2_strong; [|apply NoDup_seq].
    intros x y _ _ Heq. by apply candidate_inj in Heq. }
  assert (list_to_set (candidate b <$> seq 0 k) ⊆ reg) as Hsub.
  { intros x Hx. apply elem_of_list_to_set, list_elem_of_fmap in Hx
      as (j & -> & Hj). apply Hin. apply elem_of_seq in Hj. lia. }
  apply subseteq_size in Hsub.
  rewrite size_list_to_set, length_fmap, length_seq in Hsub; done.
Qed.

Lemma create_login_name_candidate (g m f : string) (reg : registry) :
  ∃ k, create_login_name g m f reg
       = Some (candidate (base_name g m f) k,
               {[candidate (base_name g m f) k]} ∪ reg) ∧
       (candidate (base_name g m f) k ∉ reg) ∧
       ∀ j, j < k → candidate (base_name g m f) j ∈ reg.
Proof.
  destruct (create_login_name_spec g m f reg) as (u & Hu & Hfree & Hcase).
  destruct Hcase as [[Hout ->]|[Hin (k & Hk & -> & Hless)]].
  - exists 0. split_and!; [done..|]. intros j Hj. lia.
  - exists k. destruct k as [|k]; [lia|]. split_and!; [done..|].
    intros [|j] Hj; [done|]. apply Hless. lia.
Qed.

(** X6.  [create_login_name] returns the first name, among the base, the
    base followed by 1, by 2, ..., that the registry does not hold; the
    counter it stops at is at most the number of registry elements. *)
Theorem first_free_candidate (g m f : string) (reg : registry) :
  ∃ k, k ≤ size reg ∧
       create_login_name g m f reg
       = Some (candidate (base_name g m f) k,
               {[candidate (base_name g m f) k]} ∪ reg) ∧
       (candidate (base_name g m f) k ∉ reg) ∧
       ∀ j, j < k → candidate (base_name g m f) j ∈ reg.
Proof.
  destruct (create_login_name_candidate g m f reg) as (k & Hc & Hfree & Hin).
  exists k. split_and!; try done. by eapply candidates_in_registry.
Qed.

(** X7.  Calls whose inputs all have the base [b], made on a registry that
    holds exactly the first [n] names of the sequence b, b1, b2, ..., get
    the next names of that sequence in order; on a registry that holds
    none of them they get b, b1, b2, ... *)
Theorem same_base_sequence (b : string)
    (calls : list (string * string * string)) (n : nat) (reg : registry) :
  Forall (λ c, base_name c.1.1 c.1.2 c.2 = b) calls →
  (∀ k, candidate b k ∈ reg ↔ k < n) →
  ∃ tr, call_trace calls reg = Some tr ∧
        tr.*1 = candidate b <$> seq n (length calls).
Proof.
  intros Hall. revert n reg.
  induction Hall as [|[[g m] f] calls Hb Hall IH]; intros n reg Hreg.
  - by exists [].
  - simpl in Hb. cbn [call_trace].
    destruct (create_login_name_candidate g m f reg) as (k & Hc & Hfree & Hin).
    rewrite Hb in Hc, Hfree, Hin. rewrite Hc.
    assert (k = n) as ->.
    { destruct (Nat.lt_total k n) as [Hlt|[->|Hgt]]; [|done|].
      - by apply Hreg in Hlt.
      - apply Hin, Hreg in Hgt. lia. }
    destruct (IH (S n) ({[candidate b n]} ∪ reg)) as (tr & -> & Htr).
    { intros j. rewrite elem_of_union, elem_of_singleton, Hreg. split.
      - intros [->%candidate_inj|?]; lia.
      - intros Hj. destruct (decide (j = n)) as [->|]; [by left|right; lia]. }
    eexists. split; [done|]. rewrite fmap_cons. cbn [length seq].
    rewrite fmap_cons. by f_equal.
Qed.

Lemma same_base_sequence_witness :
  ∃ tr, call_trace [("Pista", "", "Hufnagel"); ("Peter", "", "HUFNAGEL");
                    ("pavol", "", "hufnagelova")] ∅ = Some tr ∧
        tr.*1 = ["phufnage"; "phufnage1"; "phufnage2"].
Proof.
  apply (same_base_sequence "phufnage"
           [("Pista", "", "Hufnagel"); ("Peter", "", "HUFNAGEL");
            ("pavol", "", "hufnagelova")] 0 ∅).
  - repeat constructor.
  - intros k. split; [intros H; by apply not_elem_of_empty in H|lia].
Defined.

(** ** More on whole runs *)

(** X11.  Runs compose: reading [files1 ++ files2] in one call gives what
    reading [files1] and then, with the registry the first call left,
    reading [files2] gives: the records and the diagnostics of the two
    calls one after the other, and the registry of the second. *)
Theorem runs_compose (fs : file_system) (files1 files2 : list string)
    (reg : registry) :
  ∃ st1 st2,
    read_input_files fs files1 reg = Some st1 ∧
    read_input_files fs files2 (existing_logins st1) = Some st2 ∧
    read_input_files fs (files1 ++ files2) reg =
    Some {| combined_records := combined_records st1 ++ combined_records st2;
            existing_logins := existing_logins st2;
            stderr := stderr st1 ++ stderr st2 |}.
Proof.
  unfold read_input_files. rewrite !for_files_assign. simpl.
  unfold accepted_records, diagnostics. rewrite !bind_app, assign_logins_app.
  destruct (assign_logins_spec (files1 ≫= file_records fs) reg)
    as (us1 & -> & Hlen1 & _).
  destruct (assign_logins_spec (files2 ≫= file_records fs)
              (list_to_set us1 ∪ reg)) as (us2 & Hus2 & Hlen2 & _).
  eexists. exists
    {| combined_records := zip_with output_line (files2 ≫= file_records fs) us2;
       existing_logins := list_to_set us2 ∪ (list_to_set us1 ∪ reg);
       stderr := files2 ≫= file_stderr fs |}.
  split; [done|]. rewrite for_files_assign. simpl.
  fold (accepted_records fs files2) in *. unfold accepted_records in *.
  rewrite Hus2. split; [done|]. by rewrite zip_with_app.
Qed.

Lemma bind_nil_iff {A B} (f : A → list B) (l : list A) :
  l ≫= f = [] ↔ ∀ x, x ∈ l → f x = [].
Proof.
  induction l as [|x l IH]; simpl.
  - split; [intros _ ? Hx; by apply not_elem_of_nil in Hx|done].
  - rewrite app_nil, IH. split.
    + intros [Hx Hl] y [->|Hy]%elem_of_cons; auto.
    + intros H. split; [apply H; left|intros y Hy; apply H; by right].
Qed.

Lemma warning_of_nil (raw : string) :
  warning_of raw = [] ↔ warning_condition Str.isdigit raw = false.
Proof.
  unfold warning_of. pose proof (parse_line_outcome raw) as Ho.
  cbv zeta in Ho. destruct (parse_line raw) as [|id line|r].
  - by destruct Ho as [_ ->].
  - destruct Ho as (_ & -> & _). by split.
  - destruct Ho as (Hacc & _). split; [intros _|done].
    apply acceptance_true in Hacc as (_ & _ & Hid & _).
    unfold warning_condition. cbv zeta. rewrite Hid. simpl.
    by rewrite andb_false_r.
Qed.

(** X12.  A run prints nothing to [sys.stderr] exactly when no file read
    ends in an exception and no line that is non-empty after trimming and
    has at least four parts has an identifier [str.isdigit] rejects. *)
Theorem silent_run (fs : file_system) (files : list string) (reg : registry) :
  ∃ st, read_input_files fs files reg = Some st ∧
        (stderr st = [] ↔
         ∀ p, p ∈ files →
              raised_by (fs p) = None ∧
              ∀ raw, raw ∈ lines_read (fs p) →
                     warning_condition Str.isdigit raw = false).
Proof.
  destruct (read_input_files_spec fs files reg) as (us & _ & _ & _ & _ & ->).
  eexists. split; [done|]. simpl. unfold diagnostics.
  rewrite bind_nil_iff. apply forall_proper. intros p.
  apply forall_proper. intros _. unfold file_stderr.
  rewrite app_nil, bind_nil_iff.
  setoid_rewrite warning_of_nil.
  destruct (raised_by (fs p)); naive_solver.
Qed.

(** X13.  A run never issues a login that the registry it was given
    already holds, and the registry grows by exactly one element per
    output record. *)
Theorem seeded_registry_respected (fs : file_system) (files : list string)
    (reg : registry) :
  ∃ st, read_input_files fs files reg = Some st ∧
        (∀ u, u ∈ login_of <$> combined_records st → u ∉ reg) ∧
        size (existing_logins st) = size reg + length (combined_records st).
Proof.
  destruct (read_input_files_logins fs files reg)
    as (st & us & Hst & Hus & Hlen & Hrec & Hnd & Hfresh & Hreg).
  exists st. split; [done|]. rewrite Hus. split; [done|].
  rewrite Hreg, size_union, size_list_to_set by (done || set_solver).
  rewrite Hrec, length_zip_with_l_eq by done. lia.
Qed.

(** ** Characters that never get into a record *)

Section CharFree.

Variable c : ascii.

Lemma free_of_cons (d : ascii) (s : string) :
  free_of c (String d s) ↔ d ≠ c ∧ free_of c s.
Proof.
  unfold free_of. cbn [Str.mem].
  destruct (Ascii.eqb_spec c d) as [<-|Hc]; simpl; naive_solver.
Qed.

Lemma free_of_app (s t : string) :
  free_of c (s +:+ t) ↔ free_of c s ∧ free_of c t.
Proof.
  induction s as [|d s IH].
  - rewrite app_empty_l. split; [by split|by intros [_ ?]].
  - rewrite app_cons, !free_of_cons, IH. naive_solver.
Qed.

Lemma free_of_take (n : nat) (s : string) :
  free_of c s → free_of c (Str.take n s).
Proof.
  revert s; induction n as [|n IH]; intros [|d s]; simpl; try done.
  rewrite !free_of_cons. naive_solver.
Qed.

Lemma free_of_lstrip (s : string) : free_of c s → free_of c (Str.lstrip s).
Proof.
  induction s as [|d s IH]; [done|]. simpl. destruct (Char.isspace d); [|done].
  rewrite free_of_cons. naive_solver.
Qed.

Lemma free_of_rstrip (s : string) : free_of c s → free_of c (Str.rstrip s).
Proof.
  induction s as [|d s IH]; [done|]. simpl. rewrite free_of_cons.
  intros [Hd Hs]. specialize (IH Hs). destruct (Str.rstrip s) as [|e r].
  - destruct (Char.isspace d); [done|]. by rewrite free_of_cons.
  - rewrite free_of_cons. done.
Qed.

Lemma free_of_strip (s : string) : free_of c s → free_of c (Str.strip s).
Proof. intros H. by apply free_of_rstrip, free_of_lstrip. Qed.

Lemma free_of_split_go (sep : ascii) (s : string) :
  free_of c s →
  free_of c (Str.split_go sep s).1 ∧ Forall (free_of c) (Str.split_go sep s).2.
Proof.
  induction s as [|d s IH]; [by split|]. rewrite free_of_cons.
  intros [Hd Hs]. destruct (IH Hs) as [IH1 IH2]. simpl.
  destruct (Str.split_go sep s) as [p ps]. simpl in *.
  destruct (Ascii.eqb d sep); simpl.
  - split; [done|]. by constructor.
  - split; [|done]. by rewrite free_of_cons.
Qed.

Lemma free_of_split (sep : ascii) (s : string) :
  free_of c s → Forall (free_of c) (Str.split sep s).
Proof.
  intros Hs. unfold Str.split. destruct (free_of_split_go sep s Hs) as [H1 H2].
  destruct (Str.split_go sep s). by constructor.
Qed.

Lemma free_of_join (l : list string) :
  c ≠ Char.colon → Forall (free_of c) l → free_of c (Str.join ":" l).
Proof.
  intros Hc Hl. induction Hl as [|x l Hx Hl IH]; [done|].
  cbn [String.concat]. destruct l as [|y l]; [done|].
  change (free_of c (x +:+ ":" +:+ Str.join ":" (y :: l))).
  rewrite !free_of_app. split_and!; try done.
  by apply free_of_cons.
Qed.

Lemma free_of_nth (i : nat) (l : list string) :
  Forall (free_of c) l → free_of c (nth i l "").
Proof.
  intros H. revert i.
  induction H as [|x l Hx Hl IH]; intros [|i]; simpl; auto; done.
Qed.

Lemma free_of_parts (raw : string) :
  free_of c (Str.strip raw) → Forall (free_of c) (parts_of raw).
Proof.
  intros H. unfold parts_of. apply Forall_fmap.
  eapply Forall_impl; [by apply free_of_split|].
  intros s Hs. by apply free_of_strip.
Qed.

Hypothesis lower_c : ∀ d, Char.lower d = c → d = c.
Hypothesis not_decimal_c : Char.is_decimal c = false.
Hypothesis not_colon_c : c ≠ Char.colon.

Lemma free_of_lower (s : string) : free_of c s → free_of c (Str.lower s).
Proof.
  induction s as [|d s IH]; [done|]. simpl. rewrite !free_of_cons.
  intros [Hd Hs]. split; [|by apply IH]. intros H. by apply lower_c in H.
Qed.

Lemma free_of_decimal (s : string) : Str.all_decimal s = true → free_of c s.
Proof.
  induction s as [|d s IH]; [done|]. simpl. rewrite andb_true_iff.
  intros [Hd Hs]. rewrite free_of_cons. split; [|by apply IH].
  intros ->. congruence.
Qed.

Lemma free_of_base_name (g m f : string) :
  free_of c g → free_of c m → free_of c f → free_of c (base_name g m f).
Proof.
  intros Hg Hm Hf. unfold base_name, initials.
  apply free_of_take, free_of_lower, free_of_app. split; [|done].
  destruct (Str.truthy m); [apply free_of_app; split|];
    auto using free_of_lower, free_of_take.
Qed.

Lemma free_of_record (raw : string) (r : ParsedRecord) :
  free_of c (Str.strip raw) → parse_line raw = Accepted r →
  free_of c (user_id r) ∧ free_of c (given_name r) ∧
  free_of c (middle_name r) ∧ free_of c (surname r) ∧
  free_of c (department r).
Proof.
  intros Hraw Hp. pose proof (parse_line_outcome raw) as Ho.
  rewrite Hp in Ho. cbv zeta in Ho.
  destruct Ho as (_ & -> & -> & _ & Hcases).
  pose proof (free_of_parts raw Hraw) as Hparts.
  destruct Hcases as [(_ & -> & -> & ->)|[(_ & -> & -> & ->)|(_ & -> & -> & ->)]];
    split_and!; auto using free_of_nth, free_of_join, Forall_drop; done.
Qed.

Lemma free_of_process_line (raw : string) (st st' : run) :
  free_of c (Str.strip raw) → process_line raw st = Some st' →
  Forall (free_of c) (combined_records st) →
  Forall (free_of c) (combined_records st').
Proof.
  intros Hraw. unfold process_line.
  destruct (parse_line raw) as [|id line|r] eqn:Hp.
  - by intros [= <-].
  - by intros [= <-].
  - destruct (free_of_record raw r Hraw Hp) as (Hid & Hg & Hm & Hs & Hd).
    destruct (create_login_name_spec (given_name r) (middle_name r)
                (surname r) (existing_logins st)) as (u & -> & _ & Hcase).
    intros [= <-] Hall. simpl. apply Forall_app. split; [done|].
    constructor; [|done].
    assert (free_of c u) as Hu.
    { pose proof (free_of_base_name _ _ _ Hg Hm Hs) as Hb.
      destruct Hcase as [[_ ->]|[_ (k & _ & -> & _)]]; [done|].
      apply free_of_app. split; [done|].
      apply free_of_decimal, of_nat_decimal. }
    unfold output_line. rewrite !free_of_app. split_and!; try done.
    all: by apply free_of_cons.
Qed.

Lemma free_of_for_lines (lines : list string) (st st' : run) :
  Forall (λ raw, free_of c (Str.strip raw)) lines →
  for_lines lines st = Some st' →
  Forall (free_of c) (combined_records st) →
  Forall (free_of c) (combined_records st').
Proof.
  intros Hlines. revert st.
  induction Hlines as [|raw lines Hraw Hlines IH]; intros st; simpl.
  - by intros [= <-].
  - destruct (process_line raw st) as [st1|] eqn:H1; [|done].
    intros H2 Hall. eapply IH; [done|]. by eapply free_of_process_line.
Qed.

Lemma free_of_for_files (fs : file_system) (files : list string)
    (st st' : run) :
  (∀ p raw, p ∈ files → raw ∈ lines_read (fs p) →
            free_of c (Str.strip raw)) →
  for_files fs files st = Some st' →
  Forall (free_of c) (combined_records st) →
  Forall (free_of c) (combined_records st').
Proof.
  revert st. induction files as [|p files IH]; intros st Hfiles; simpl.
  - by intros [= <-].
  - destruct (read_file fs p st) as [st1|] eqn:H1; [|done].
    intros H2 Hall. eapply IH; [|done|].
    + intros q raw Hq. apply Hfiles. by right.
    + unfold read_file in H1.
      assert (Forall (λ raw, free_of c (Str.strip raw)) (lines_read (fs p)))
        as Hlines.
      { apply Forall_forall. intros raw Hraw. eapply Hfiles; [by left|done]. }
      destruct (fs p) as [e|lines raised]; simpl in *.
      * by simplify_eq.
      * destruct (for_lines lines st) as [st2|] eqn:H3; [|done].
        pose proof (free_of_for_lines lines st st2 Hlines H3 Hall).
        destruct raised; by simplify_eq.
Qed.

End CharFree.

(** ** The output file *)

Lemma split_app_sep (sep : ascii) (a rest : string) :
  free_of sep a →
  Str.split sep (a +:+ String sep rest) = a :: Str.split sep rest.
Proof.
  unfold Str.split. induction a as [|d a IH]; intros Ha.
  - rewrite app_empty_l. simpl. rewrite Ascii.eqb_refl.
    by destruct (Str.split_go sep rest).
  - apply free_of_cons in Ha as [Hd Ha]. specialize (IH Ha).
    rewrite app_cons. simpl.
    destruct (Str.split_go sep (a +:+ String sep rest)) as [p ps].
    destruct (Str.split_go sep rest) as [q qs].
    destruct (Ascii.eqb_spec d sep) as [->|_]; [done|].
    by simplify_eq.
Qed.

Lemma lower_line_feed (d : ascii) : Char.lower d = line_feed → d = line_feed.
Proof. destruct d as [[] [] [] [] [] [] [] []]; vm_compute; congruence. Qed.

(** ** The comparison of the test driver *)

Lemma line_diffs_nil (i : nat) (data1 data2 : list string) :
  line_diffs i data1 data2 = [] → length data1 = length data2 →
  data1 = data2.
Proof.
  revert i data2. induction data1 as [|x data1 IH]; intros i [|y data2];
    simpl; try done.
  destruct (decide (x = y)) as [->|]; [|done].
  intros H Hlen. f_equal. eapply IH; [done|lia].
Qed.

Lemma line_diffs_nonempty (i : nat) (data1 data2 : list string) :
  Forall (λ e, e ≠ "") (line_diffs i data1 data2).
Proof.
  revert i data2. induction data1 as [|x data1 IH]; intros i [|y data2];
    simpl; try by constructor.
  apply Forall_app. split; [|by apply IH].
  destruct (decide (x = y)); by repeat constructor.
Qed.

Lemma join_nonempty (sep x : string) (xs : list string) :
  x ≠ "" → Str.join sep (x :: xs) ≠ "".
Proof.
  intros Hx. cbn [String.concat]. destruct xs; [done|].
  destruct x; [done|]. by rewrite app_cons.
Qed.

(** X16.  [compare_files] answers [True] with an empty message, and only
    for two existing files whose lines agree after trimming on the right;
    whenever it answers [False] the message is not empty. *)
Theorem compare_files_verdict (file1 file2 : option string) :
  match compare_files file1 file2 with
  | (true, message) =>
      message = "" ∧
      ∃ text1 text2,
        file1 = Some text1 ∧ file2 = Some text2 ∧
        Str.rstrip <$> splitlines text1 = Str.rstrip <$> splitlines text2
  | (false, message) => message ≠ ""
  end.
Proof.
  unfold compare_files. destruct file1 as [text1|], file2 as [text2|];
    try done.
  cbv zeta. set (data1 := Str.rstrip <$> splitlines text1).
  set (data2 := Str.rstrip <$> splitlines text2).
  destruct (decide (data1 = data2)) as [Heq|Hne].
  { split; [done|]. by exists text1, text2. }
  destruct (line_diffs 0 data1 data2) as [|e es] eqn:Hd.
  - destruct (decide (length data1 = length data2)) as [Hlen|Hlen].
    + by apply line_diffs_nil in Hd.
    + done.
  - pose proof (line_diffs_nonempty 0 data1 data2) as Hall.
    rewrite Hd in Hall. apply Forall_cons in Hall as [He _].
    cbn [app]. by apply join_nonempty.
Qed.

Lemma splitlines_cons (c : ascii) (s : string) :
  splitlines (String c s) =
  if is_linebreak c then
    "" :: match s with
          | "" => []
          | String d s' =>
              if Ascii.eqb c carriage_return && Ascii.eqb d line_feed
              then splitlines s'
              else splitlines s
          end
  else
    match splitlines s with
    | [] => [String c ""]
    | l :: ls => String c l :: ls
    end.
Proof. reflexivity. Qed.

Lemma splitlines_line_feed (s : string) :
  (open_ended s = true → splitlines (s +:+ newline) = splitlines s) ∧
  ∀ c, open_ended (String c s) = true →
       splitlines (String c s +:+ newline) = splitlines (String c s).
Proof.
  induction s as [|d s [IH1 IH2]].
  - split; [done|]. intros c Hc. simpl in Hc.
    apply negb_true_iff in Hc. rewrite app_cons, app_empty_l.
    rewrite !splitlines_cons, Hc. reflexivity.
  - split; [apply IH2|]. intros c Hc.
    change (open_ended (String c (String d s)))
      with (open_ended (String d s)) in Hc.
    specialize (IH2 d Hc). rewrite app_cons in IH2.
    rewrite !app_cons.
    rewrite (splitlines_cons c (String d (s +:+ newline))).
    rewrite (splitlines_cons c (String d s)).
    destruct (is_linebreak c).
    + destruct (Ascii.eqb c carriage_return && Ascii.eqb d line_feed) eqn:Hcr.
      * f_equal. apply IH1. destruct s; [|done].
        apply andb_true_iff in Hcr as [_ Hd%Ascii.eqb_eq]. by subst d.
      * by f_equal.
    + by rewrite IH2.
Qed.

(** X17.  For [compare_files] a line feed after the last line makes no
    difference: a text that does not end in a line boundary compares
    equal, both ways, to the same text followed by a line feed. *)
Theorem final_newline_ignored (text : string) :
  open_ended text = true →
  splitlines (text +:+ newline) = splitlines text ∧
  compare_files (Some (text +:+ newline)) (Some text) = (true, "") ∧
  compare_files (Some text) (Some (text +:+ newline)) = (true, "").
Proof.
  intros Hopen. destruct (splitlines_line_feed text) as [Hs _].
  specialize (Hs Hopen). split; [done|].
  unfold compare_files. cbv zeta. rewrite Hs.
  by rewrite decide_True.
Qed.

Lemma final_newline_ignored_witness :
  compare_files
    (Some ("1234:jmhurban:Jozef:Miloslav:Hurban:Legal" +:+ newline))
    (Some "1234:jmhurban:Jozef:Miloslav:Hurban:Legal") = (true, "").
Proof.
  apply (final_newline_ignored "1234:jmhurban:Jozef:Miloslav:Hurban:Legal").
  reflexivity.
Defined.

(** * The generator over any alphabet *)

(** ** The counter in decimal, and the loop *)

Lemma length_list_ascii (s : string) :
  length (list_ascii_of_string s) = Str.len s.
Proof. induction s as [|c s IH]; [done|]. simpl. by rewrite IH. Qed.

Lemma list_ascii_inj (s t : string) :
  list_ascii_of_string s = list_ascii_of_string t → s = t.
Proof.
  intros Heq. apply (f_equal string_of_list_ascii) in Heq.
  by rewrite !string_of_list_ascii_of_string in Heq.
Qed.

Section UnicodeLoop.

Context {char : Type} `{Countable char}.

Variable lower : list char → list char.
Variable of_ascii : ascii → char.

Hypothesis of_ascii_inj : ∀ a b, of_ascii a = of_ascii b → a = b.

Lemma uni_fmap_inj (l k : list ascii) :
  of_ascii <$> l = of_ascii <$> k → l = k.
Proof.
  revert k. induction l as [|a l IH]; intros [|b k] Heq; simplify_eq/=;
    [done|]. f_equal; [by apply of_ascii_inj|by apply IH].
Qed.

Lemma uni_str_inj (j k : nat) :
  Unicode.str of_ascii j = Unicode.str of_ascii k → j = k.
Proof.
  unfold Unicode.str. intros Heq%uni_fmap_inj%list_ascii_inj.
  by apply of_nat_inj.
Qed.

Lemma uni_str_length (k : nat) :
  length (Unicode.str of_ascii k) = Str.len (Str.of_nat k).
Proof. unfold Unicode.str. by rewrite length_fmap, length_list_ascii. Qed.

Lemma uni_app_str_neq (b : list char) (k : nat) :
  b ++ Unicode.str of_ascii k ≠ b.
Proof.
  intros Heq. apply (f_equal length) in Heq.
  rewrite length_app, uni_str_length in Heq.
  pose proof (len_of_nat_pos k). lia.
Qed.

Lemma uni_app_str_inj (b : list char) (j k : nat) :
  b ++ Unicode.str of_ascii j = b ++ Unicode.str of_ascii k → j = k.
Proof. intros Heq%app_inv_head. by apply uni_str_inj. Qed.

Lemma uni_while_taken_free (fuel : nat) (b u : list char) (c : nat)
    (reg : gset (list char)) :
  u ∉ reg → Unicode.while_taken of_ascii fuel b u c reg = Some u.
Proof. intros Hu. destruct fuel; simpl; by rewrite decide_False. Qed.

Lemma uni_while_taken_step (fuel : nat) (b u : list char) (c : nat)
    (reg : gset (list char)) :
  u ∈ reg →
  Unicode.while_taken of_ascii (S fuel) b u c reg
  = Unicode.while_taken of_ascii fuel b (b ++ Unicode.str of_ascii c) (S c) reg.
Proof. intros Hu. simpl. by rewrite decide_True. Qed.

Lemma uni_while_taken_out (b u : list char) (c : nat)
    (reg : gset (list char)) :
  u ∈ reg → Unicode.while_taken of_ascii 0 b u c reg = None.
Proof. intros Hu. simpl. by rewrite decide_True. Qed.

Lemma uni_while_taken_sound (fuel : nat) (b u : list char) (c : nat)
    (reg : gset (list char)) (r : list char) :
  Unicode.while_taken of_ascii fuel b u c reg = Some r →
  (r ∉ reg) ∧
  (((u ∉ reg) ∧ r = u) ∨
   (u ∈ reg ∧ ∃ k, c ≤ k ∧ r = b ++ Unicode.str of_ascii k)).
Proof.
  revert u c. induction fuel as [|fuel IH]; intros u c.
  - destruct (decide (u ∈ reg)) as [Hu|Hu].
    + by rewrite uni_while_taken_out.
    + rewrite uni_while_taken_free by done. intros [= <-]. auto.
  - destruct (decide (u ∈ reg)) as [Hu|Hu].
    + rewrite uni_while_taken_step by done. intros Hr.
      destruct (IH _ _ Hr) as [Hfree Hcase]. split; [done|]. right.
      split; [done|]. destruct Hcase as [[Hc ->]|[Hc (k & Hk & ->)]].
      * exists c. by split.
      * exists k. split; [lia|done].
    + rewrite uni_while_taken_free by done. intros [= <-]. auto.
Qed.

Lemma uni_while_taken_enough (fuel : nat) (b u : list char) (c : nat)
    (reg tried : gset (list char)) :
  tried ⊆ reg →
  u ∉ tried →
  (∀ k, c ≤ k → (b ++ Unicode.str of_ascii k) ∉ tried) →
  (∀ k, c ≤ k → b ++ Unicode.str of_ascii k ≠ u) →
  size reg ≤ size tried + fuel →
  is_Some (Unicode.while_taken of_ascii fuel b u c reg).
Proof.
  revert u c tried. induction fuel as [|fuel IH];
    intros u c tried Hsub Hu Hnew Hne Hsize.
  - destruct (decide (u ∈ reg)) as [Hin|Hin].
    + exfalso.
      assert (size (tried ∪ {[u]}) ≤ size reg) as Hle
        by (apply subseteq_size; set_solver).
      rewrite size_union, size_singleton in Hle by set_solver. lia.
    + rewrite uni_while_taken_free by done. eauto.
  - destruct (decide (u ∈ reg)) as [Hin|Hin].
    + rewrite uni_while_taken_step by done.
      apply (IH _ _ (tried ∪ {[u]})).
      * set_solver.
      * specialize (Hnew c (Nat.le_refl _)). specialize (Hne c (Nat.le_refl _)).
        set_solver.
      * intros k Hk. specialize (Hnew k). specialize (Hne k).
        assert (c ≤ k) as Hck by lia. set_solver.
      * intros k Hk Heq. apply uni_app_str_inj in Heq. lia.
      * rewrite size_union, size_singleton by set_solver. lia.
    + rewrite uni_while_taken_free by done. eauto.
Qed.

(** The call returns, with the base if that is free and with the base
    followed by a counter from 1 on if not, and adds what it returns. *)
Lemma uni_create_login_name_spec (g m f : list char) (reg : gset (list char)) :
  ∃ u, Unicode.create_login_name lower of_ascii g m f reg
       = Some (u, {[u]} ∪ reg) ∧
       (u ∉ reg) ∧
       (((Unicode.base_name lower g m f ∉ reg) ∧
         u = Unicode.base_name lower g m f) ∨
        (Unicode.base_name lower g m f ∈ reg ∧
         ∃ k, 1 ≤ k ∧
              u = Unicode.base_name lower g m f ++ Unicode.str of_ascii k)).
Proof.
  unfold Unicode.create_login_name.
  destruct (uni_while_taken_enough (size reg) (Unicode.base_name lower g m f)
              (Unicode.base_name lower g m f) 1 reg ∅) as [u Hu].
  - set_solver.
  - set_solver.
  - set_solver.
  - intros k _. apply uni_app_str_neq.
  - rewrite size_empty. lia.
  - rewrite Hu. exists u. split; [done|]. by apply uni_while_taken_sound in Hu.
Qed.

End UnicodeLoop.

(** ** The sample alphabet *)

Lemma N_of_ascii_inj (a b : ascii) : N_of_ascii a = N_of_ascii b → a = b.
Proof.
  intros Heq. apply (f_equal ascii_of_N) in Heq.
  by rewrite !ascii_N_embedding in Heq.
Qed.

Lemma sample_lower_app (a b : list N) :
  sample_lower (a ++ b) = sample_lower a ++ sample_lower b.
Proof. apply bind_app. Qed.

Lemma sample_lower_cons (c : N) (a : list N) :
  sample_lower (c :: a) = sample_lower_char c ++ sample_lower a.
Proof. reflexivity. Qed.

Lemma sample_lower_char_cases (c : N) :
  ((65 ≤ c ≤ 90)%N ∧ sample_lower_char c = [(c + 32)%N]) ∨
  (c = 304%N ∧ sample_lower_char c = [105%N; 775%N]) ∨
  (¬ (65 ≤ c ≤ 90)%N ∧ c ≠ 304%N ∧ sample_lower_char c = [c]).
Proof.
  unfold sample_lower_char.
  destruct (N.leb_spec 65 c), (N.leb_spec c 90); simpl;
    try (left; split; [lia|done]);
    destruct (N.eqb_spec c 304); try (right; left; by split);
    right; right; split_and!; try done; lia.
Qed.

Lemma sample_lower_char_fixed (c : N) :
  ¬ (65 ≤ c ≤ 90)%N → c ≠ 304%N → sample_lower_char c = [c].
Proof.
  intros H1 H2.
  destruct (sample_lower_char_cases c) as [[? _]|[[? _]|(_ & _ & ?)]]; done.
Qed.

Lemma sample_lower_length (s : list N) : length s ≤ length (sample_lower s).
Proof.
  induction s as [|c s IH]; [done|].
  rewrite sample_lower_cons, length_app. simpl.
  destruct (sample_lower_char_cases c) as [[_ ->]|[[_ ->]|(_ & _ & ->)]];
    simpl; lia.
Qed.

Lemma sample_lower_one (c : N) : length (sample_lower [c]) ≤ 3.
Proof.
  rewrite sample_lower_cons. simpl. rewrite app_nil_r.
  destruct (sample_lower_char_cases c) as [[_ ->]|[[_ ->]|(_ & _ & ->)]];
    simpl; lia.
Qed.

Lemma sample_lower_idem (s : list N) :
  sample_lower (sample_lower s) = sample_lower s.
Proof.
  induction s as [|c s IH]; [done|].
  rewrite sample_lower_cons, sample_lower_app, IH. f_equal.
  destruct (sample_lower_char_cases c) as [[Hc ->]|[[_ ->]|(H1 & H2 & ->)]].
  - rewrite sample_lower_cons, sample_lower_char_fixed by lia. done.
  - reflexivity.
  - rewrite sample_lower_cons, sample_lower_char_fixed by done. done.
Qed.

Lemma sample_lower_fixed_app (a b : list N) :
  sample_lower a = a → sample_lower b = b → sample_lower (a ++ b) = a ++ b.
Proof. intros Ha Hb. by rewrite sample_lower_app, Ha, Hb. Qed.

Lemma sample_lower_fixed_prefix (a b : list N) :
  sample_lower a = a → a `prefix_of` sample_lower (a ++ b).
Proof.
  intros Ha. rewrite sample_lower_app, Ha. by apply prefix_app_r.
Qed.

Lemma sample_lower_fixed_cons (c : N) (a : list N) :
  sample_lower (c :: a) = c :: a →
  sample_lower_char c = [c] ∧ sample_lower a = a.
Proof.
  rewrite sample_lower_cons.
  destruct (sample_lower_char_cases c) as [[Hc ->]|[[Hc ->]|(_ & _ & ->)]];
    simpl; intros Heq; simplify_eq; [lia|done].
Qed.

Lemma sample_lower_fixed_take (n : nat) (a : list N) :
  sample_lower a = a → sample_lower (take n a) = take n a.
Proof.
  revert n. induction a as [|c a IH]; intros [|n] Ha; try done.
  apply sample_lower_fixed_cons in Ha as [Hc Ha].
  change (take (S n) (c :: a)) with (c :: take n a).
  rewrite sample_lower_cons, Hc, IH by done. done.
Qed.

Lemma sample_lower_decimal (s : string) :
  Str.all_decimal s = true → sample_lower (code_points s) = code_points s.
Proof.
  unfold code_points. induction s as [|c s IH]; [done|].
  cbn [Str.all_decimal]. rewrite andb_true_iff. intros [Hc Hs].
  change (N_of_ascii <$> list_ascii_of_string (String c s))
    with (N_of_ascii c :: (N_of_ascii <$> list_ascii_of_string s)).
  rewrite sample_lower_cons, IH by done.
  rewrite sample_lower_char_fixed; [done| |].
  - unfold Char.is_decimal, Char.code in Hc.
    apply andb_true_iff in Hc as [_ Hle%N.leb_le]. lia.
  - unfold Char.is_decimal, Char.code in Hc.
    apply andb_true_iff in Hc as [_ Hle%N.leb_le]. lia.
Qed.

Lemma sample_lower_digits (k : nat) :
  sample_lower (Unicode.str N_of_ascii k) = Unicode.str N_of_ascii k.
Proof. apply sample_lower_decimal, of_nat_decimal. Qed.

(** ** The truncation law *)

Section TruncationLaw.

Context {char : Type} `{Countable char}.

Variable lower : list char → list char.
Variable of_ascii : ascii → char.

Hypothesis of_ascii_inj : ∀ a b, of_ascii a = of_ascii b → a = b.

(** [str.lower] never makes a string shorter. *)
Hypothesis lower_length : ∀ s, length s ≤ length (lower s).

(** C6 (truncation law and suffix overflow), for strings over any alphabet
    and any [lower] that never shortens a string.  When initials + surname
    is longer than 8 characters the base has exactly 8; the base never has
    more than 8.  The call returns the base itself if it is free, and
    otherwise the base followed by the decimal digits of a counter from 1
    on, nothing cut off: the login is then as long as the base plus the
    digits, which is more than 8 for an 8-character base. *)
Theorem truncation_law (g m f : list char) (reg : gset (list char)) :
  (8 < length (Unicode.initials lower g m ++ f) →
   length (Unicode.base_name lower g m f) = 8) ∧
  length (Unicode.base_name lower g m f) ≤ 8 ∧
  ∃ u, Unicode.create_login_name lower of_ascii g m f reg
       = Some (u, {[u]} ∪ reg) ∧
       (((Unicode.base_name lower g m f ∉ reg) ∧
         u = Unicode.base_name lower g m f) ∨
        ((Unicode.base_name lower g m f ∈ reg) ∧
         ∃ k, 1 ≤ k ∧
              u = Unicode.base_name lower g m f ++
                  (of_ascii <$> list_ascii_of_string (Str.of_nat k)) ∧
              Str.all_decimal (Str.of_nat k) = true ∧
              length u = length (Unicode.base_name lower g m f) +
                         Str.len (Str.of_nat k) ∧
              length (Unicode.base_name lower g m f) < length u)).
Proof.
  assert (length (Unicode.base_name lower g m f)
          = 8 `min` length (lower (Unicode.initials lower g m ++ f))) as Hlen
    by apply length_take.
  pose proof (lower_length (Unicode.initials lower g m ++ f)) as Hlow.
  split_and!; [lia..|].
  destruct (uni_create_login_name_spec lower of_ascii of_ascii_inj g m f reg)
    as (u & Hu & _ & Hcase).
  exists u. split; [done|].
  destruct Hcase as [[Hout ->]|[Hin (k & Hk & ->)]]; [by left|right].
  split; [done|]. exists k. pose proof (len_of_nat_pos k).
  rewrite length_app, uni_str_length.
  split_and!; auto using of_nat_decimal. lia.
Qed.

End TruncationLaw.

Lemma truncation_law_witness :
  length (Unicode.base_name sample_lower [304%N] []
            (code_points "HufnagelXtraLong")) = 8.
Proof.
  apply (truncation_law sample_lower N_of_ascii N_of_ascii_inj
           sample_lower_length [304%N] [] (code_points "HufnagelXtraLong") ∅).
  vm_compute. lia.
Defined.

(** ** The initials *)

Section InitialsPrefix.

Context {char : Type} `{Countable char}.

Variable lower : list char → list char.
Variable of_ascii : ascii → char.

Hypothesis of_ascii_inj : ∀ a b, of_ascii a = of_ascii b → a = b.

(** What is used of [str.lower]: the empty string stays empty; lowering
    twice is lowering once; two strings that are in lower case stay so
    when put one after the other; a string in lower case stays as it is
    at the front of a longer string that is lowered; and one character
    gives at most three. *)
Hypothesis lower_empty : lower [] = [].
Hypothesis lower_idem : ∀ s, lower (lower s) = lower s.
Hypothesis lower_fixed_app :
  ∀ a b, lower a = a → lower b = b → lower (a ++ b) = a ++ b.
Hypothesis lower_fixed_prefix :
  ∀ a b, lower a = a → a `prefix_of` lower (a ++ b).
Hypothesis lower_one : ∀ c, length (lower [c]) ≤ 3.

Lemma uni_initials_eq (g m : list char) :
  Unicode.initials lower g m = Unicode.initials_prefix lower g m.
Proof using lower_empty.
  unfold Unicode.initials, Unicode.initials_prefix, Unicode.first_lower.
  destruct g as [|c g], m as [|d m]; simpl;
    rewrite ?lower_empty, ?app_nil_r; done.
Qed.

Lemma uni_first_lower_fixed (s : list char) :
  lower (Unicode.first_lower lower s) = Unicode.first_lower lower s.
Proof using lower_empty lower_idem.
  destruct s as [|c s]; simpl; [apply lower_empty|apply lower_idem].
Qed.

Lemma uni_first_lower_length (s : list char) :
  length (Unicode.first_lower lower s) ≤ 3.
Proof using lower_one.
  destruct s as [|c s]; simpl; [lia|apply lower_one].
Qed.

Lemma uni_base_name_prefix (g m f : list char) :
  Unicode.initials_prefix lower g m `prefix_of` Unicode.base_name lower g m f.
Proof using lower_empty lower_idem lower_fixed_app lower_fixed_prefix lower_one.
  unfold Unicode.base_name. rewrite uni_initials_eq.
  destruct (lower_fixed_prefix (Unicode.initials_prefix lower g m) f)
    as [t Ht].
  { unfold Unicode.initials_prefix.
    apply lower_fixed_app; apply uni_first_lower_fixed. }
  rewrite Ht, take_app_ge.
  - by eexists.
  - unfold Unicode.initials_prefix. rewrite length_app.
    pose proof (uni_first_lower_length g). pose proof (uni_first_lower_length m).
    lia.
Qed.

(** C8 (initials prefix), for strings over any alphabet and any [lower]
    with the properties above.  For a non-empty surname the login returned
    by [create_login_name] starts with the lowercase first character of
    the given name (nothing if it is empty) followed by the lowercase
    first character of the middle name (nothing if it is empty); the base
    already does, truncated or not, and so does the suffixed login; and
    the registry contains the login after the call. *)
Theorem initials_prefix_kept (g m f : list char) (reg : gset (list char)) :
  f ≠ [] →
  Unicode.initials_prefix lower g m `prefix_of` Unicode.base_name lower g m f ∧
  ∃ u reg', Unicode.create_login_name lower of_ascii g m f reg
            = Some (u, reg') ∧
            Unicode.initials_prefix lower g m `prefix_of` u ∧ u ∈ reg'.
Proof using of_ascii_inj lower_empty lower_idem lower_fixed_app
  lower_fixed_prefix lower_one.
  intros _. pose proof (uni_base_name_prefix g m f) as Hpre.
  split; [done|].
  destruct (uni_create_login_name_spec lower of_ascii of_ascii_inj g m f reg)
    as (u & Hu & _ & Hcase).
  exists u, ({[u]} ∪ reg). split; [done|]. split; [|set_solver].
  destruct Hcase as [[_ ->]|[_ (k & _ & ->)]]; [done|].
  by apply prefix_app_r.
Qed.

End InitialsPrefix.

Lemma initials_prefix_kept_witness :
  [105%N; 775%N; 109%N] `prefix_of`
    Unicode.base_name sample_lower [304%N] (code_points "Miloslav")
      (code_points "Hurban") ∧
  ∃ u reg',
    Unicode.create_login_name sample_lower N_of_ascii [304%N]
      (code_points "Miloslav") (code_points "Hurban") ∅ = Some (u, reg') ∧
    [105%N; 775%N; 109%N] `prefix_of` u ∧ u ∈ reg'.
Proof.
  apply (initials_prefix_kept sample_lower N_of_ascii N_of_ascii_inj
           eq_refl sample_lower_idem sample_lower_fixed_app
           sample_lower_fixed_prefix sample_lower_one
           [304%N] (code_points "Miloslav") (code_points "Hurban") ∅).
  discriminate.
Defined.

(** ** Lower case *)

Section LoginLowercase.

Context {char : Type} `{Countable char}.

Variable lower : list char → list char.
Variable of_ascii : ascii → char.

Hypothesis of_ascii_inj : ∀ a b, of_ascii a = of_ascii b → a = b.

(** What is used of [str.lower]: it never makes a string shorter; the
    empty string stays empty; lowering twice is lowering once; a string
    in lower case stays so when cut short, and two such strings when put
    one after the other; decimal numerals are in lower case. *)
Hypothesis lower_length : ∀ s, length s ≤ length (lower s).
Hypothesis lower_empty : lower [] = [].
Hypothesis lower_idem : ∀ s, lower (lower s) = lower s.
Hypothesis lower_fixed_app :
  ∀ a b, lower a = a → lower b = b → lower (a ++ b) = a ++ b.
Hypothesis lower_fixed_take :
  ∀ n a, lower a = a → lower (take n a) = take n a.
Hypothesis lower_digits :
  ∀ k, lower (Unicode.str of_ascii k) = Unicode.str of_ascii k.

Lemma uni_lower_base_name (g m f : list char) :
  lower (Unicode.base_name lower g m f) = Unicode.base_name lower g m f.
Proof using lower_idem lower_fixed_take.
  unfold Unicode.base_name. apply lower_fixed_take, lower_idem.
Qed.

Lemma uni_lower_nonempty (s : list char) : lower s = [] → s = [].
Proof using lower_length.
  intros Hs. pose proof (lower_length s) as Hlen. rewrite Hs in Hlen.
  destruct s; [done|simpl in Hlen; lia].
Qed.

Lemma uni_base_name_empty (g m f : list char) :
  Unicode.base_name lower g m f = [] ↔ g = [] ∧ m = [] ∧ f = [].
Proof using lower_length lower_empty.
  unfold Unicode.base_name, Unicode.initials. split.
  - intros Hb. apply take_nil_inv in Hb as [?|Hb]; [done|].
    apply uni_lower_nonempty, app_eq_nil in Hb as [Hi ->].
    destruct g as [|c g].
    + destruct m as [|d m]; [done|]. simpl in Hi.
      apply app_eq_nil in Hi as [_ Hi]. by apply uni_lower_nonempty in Hi.
    + destruct m as [|d m]; simpl in Hi.
      * by apply uni_lower_nonempty in Hi.
      * apply app_eq_nil in Hi as [Hi _]. by apply uni_lower_nonempty in Hi.
  - intros (-> & -> & ->). simpl. rewrite lower_empty. simpl.
    by rewrite lower_empty.
Qed.

(** X10.  For strings over any alphabet and any [lower] with the
    properties above, the login is in lower case, and it is the empty
    string only when all three names are empty and the empty string is
    free. *)
Theorem login_lowercase (g m f : list char) (reg : gset (list char)) :
  ∃ u, Unicode.create_login_name lower of_ascii g m f reg
       = Some (u, {[u]} ∪ reg) ∧
       lower u = u ∧
       (u = [] ↔ g = [] ∧ m = [] ∧ f = [] ∧ [] ∉ reg).
Proof using of_ascii_inj lower_length lower_empty lower_idem lower_fixed_app
  lower_fixed_take lower_digits.
  destruct (uni_create_login_name_spec lower of_ascii of_ascii_inj g m f reg)
    as (u & Hu & Hfree & Hcase).
  exists u. split; [done|].
  destruct Hcase as [[Hout ->]|[Hin (k & Hk & ->)]].
  - split; [apply uni_lower_base_name|]. rewrite uni_base_name_empty. split.
    + intros (-> & -> & ->). split_and!; try done.
      intros Hin. apply Hout.
      by rewrite (proj2 (uni_base_name_empty [] [] [])).
    + naive_solver.
  - split.
    + apply lower_fixed_app; [apply uni_lower_base_name|apply lower_digits].
    + split.
      * intros Hnil%app_eq_nil. destruct Hnil as [_ Hnil].
        apply (f_equal length) in Hnil.
        rewrite (uni_str_length of_ascii) in Hnil.
        pose proof (len_of_nat_pos k). simpl in Hnil. lia.
      * intros (-> & -> & -> & Hempty). exfalso. apply Hempty.
        by rewrite (proj2 (uni_base_name_empty [] [] [])) in Hin.
Qed.

End LoginLowercase.

Lemma login_lowercase_witness :
  ∃ u, Unicode.create_login_name sample_lower N_of_ascii [304%N] []
         (code_points "Hurban") ∅ = Some (u, {[u]} ∪ ∅) ∧
       sample_lower u = u ∧
       (u = [] ↔ [304%N] = [] ∧ ([] : list N) = [] ∧
                 code_points "Hurban" = [] ∧ [] ∉ (∅ : gset (list N))).
Proof.
  apply (login_lowercase sample_lower N_of_ascii N_of_ascii_inj
           sample_lower_length eq_refl sample_lower_idem
           sample_lower_fixed_app sample_lower_fixed_take
           sample_lower_digits).
Defined.

(** * The output file *)

Lemma written_text_app (records1 records2 : list string) :
  written_text (records1 ++ records2) =
  written_text records1 +:+ written_text records2.
Proof.
  unfold written_text. induction records1 as [|r records1 IH]; [done|].
  simpl. by rewrite IH, !app_assoc_str.
Qed.

Lemma written_text_length (records : list string) :
  Str.len (written_text records)
  = sum_list (Str.len <$> records) + length records.
Proof.
  unfold written_text. induction records as [|r rs IH]; [done|].
  cbn [foldr fmap list_fmap sum_list sum_list_with length].
  rewrite !len_app, IH. simpl. lia.
Qed.

Lemma split_written_text (records : list string) :
  Forall (free_of line_feed) records →
  Str.split line_feed (written_text records) = records ++ [""].
Proof.
  unfold written_text. induction 1 as [|r records Hr Hall IH]; [done|].
  simpl. rewrite app_assoc_str.
  change (newline +:+ ?t) with (String line_feed t).
  by rewrite split_app_sep, IH.
Qed.

(** X14.  [main] reads all the input first.  When [open] then raises for
    the output path, [main] ends with that exception and nothing is
    written.  Otherwise, provided no line of the input holds a line feed
    other than in the whitespace at its ends, it writes a text of exactly
    one line per record: cut at its line feeds, the text gives back the
    records [read_input_files] returned on an empty registry, followed by
    one empty piece, and it has as many line feeds as the input has
    accepted lines. *)
Theorem one_line_per_record (fs : file_system) (opens : opener)
    (output : string) (input_files : list string) :
  (∀ p raw, p ∈ input_files → raw ∈ lines_read (fs p) →
            free_of line_feed (Str.strip raw)) →
  ∃ st,
    read_input_files fs input_files ∅ = Some st ∧
    match opens output with
    | Some e =>
        main fs opens output input_files = Some (MainRaises (stderr st) e)
    | None =>
        ∃ text,
          main fs opens output input_files = Some (MainWrote (stderr st) text) ∧
          Str.split line_feed text = combined_records st ++ [""] ∧
          count_char line_feed text = length (accepted_records fs input_files)
    end.
Proof.
  intros Hlines. unfold main, write_output_file.
  destruct (read_input_files_logins fs input_files ∅)
    as (st & us & Hst & _ & Hlen & Hrec & _).
  rewrite Hst. exists st. split; [done|].
  destruct (opens output) as [e|]; [done|].
  eexists. split; [done|].
  assert (Forall (free_of line_feed) (combined_records st)) as Hfree.
  { unfold read_input_files in Hst.
    eapply (free_of_for_files line_feed lower_line_feed eq_refl);
      [| exact Hlines | exact Hst | by constructor].
    discriminate. }
  pose proof (split_written_text _ Hfree) as Hsplit.
  split; [done|].
  apply (f_equal length) in Hsplit.
  rewrite length_split, length_app in Hsplit. simpl in Hsplit.
  rewrite Hrec, length_zip_with_l_eq in Hsplit by done.
  rewrite Hrec. lia.
Qed.

Lemma one_line_per_record_witness :
  ∃ st,
    read_input_files
      (one_file ["1111:Pista::Hufnagel:Sales" +:+ newline;
                 "2222:Pista::Hufnagel:Sales" +:+ newline]) ["in"] ∅
    = Some st ∧
    ∃ text,
      main (one_file ["1111:Pista::Hufnagel:Sales" +:+ newline;
                      "2222:Pista::Hufnagel:Sales" +:+ newline])
        (fun _ => None) "out" ["in"]
      = Some (MainWrote (stderr st) text) ∧
      Str.split line_feed text = combined_records st ++ [""] ∧
      count_char line_feed text
      = length (accepted_records
                  (one_file ["1111:Pista::Hufnagel:Sales" +:+ newline;
                             "2222:Pista::Hufnagel:Sales" +:+ newline])
                  ["in"]).
Proof.
  apply (one_line_per_record
           (one_file ["1111:Pista::Hufnagel:Sales" +:+ newline;
                      "2222:Pista::Hufnagel:Sales" +:+ newline])
           (fun _ => None) "out" ["in"]).
  intros p raw _ Hraw. simpl in Hraw.
  apply elem_of_cons in Hraw as [->|Hraw]; [reflexivity|].
  apply elem_of_cons in Hraw as [->|Hraw]; [reflexivity|].
  by apply not_elem_of_nil in Hraw.
Defined.

(** X15.  When [open] raises for the destination, [write_output_file]
    ends with that exception and writes nothing.  Otherwise the text it
    writes for [records1 ++ records2] is the text for [records1] followed
    by the text for [records2]; the length of a text is the length of all
    its records plus one per record; and a text is empty only for an
    empty list of records. *)
Theorem written_text_shape (opens : opener) (destination : string)
    (records1 records2 : list string) :
  match opens destination with
  | Some e =>
      write_output_file opens destination (records1 ++ records2)
      = WriteRaises e
  | None =>
      ∃ text1 text2,
        write_output_file opens destination records1 = Wrote text1 ∧
        write_output_file opens destination records2 = Wrote text2 ∧
        write_output_file opens destination (records1 ++ records2)
        = Wrote (text1 +:+ text2) ∧
        Str.len text1 = sum_list (Str.len <$> records1) + length records1 ∧
        (text1 = "" ↔ records1 = [])
  end.
Proof.
  unfold write_output_file. destruct (opens destination) as [e|]; [done|].
  exists (written_text records1), (written_text records2).
  split; [done|]. split; [done|]. split; [by rewrite written_text_app|].
  pose proof (written_text_length records1) as Hlen. split; [done|]. split.
  - intros H. rewrite H in Hlen. simpl in Hlen.
    destruct records1; [done|]. simpl in Hlen. lia.
  - by intros ->.
Qed.

(** * The failure of a read *)

(** C2 (whole-file read failure): the code departs from the claim.  The
    file of [late_failure] yields the line "1:A:B:C" and then raises from
    its iterator: the read has failed and is reported as failed, yet the
    record of that line stays in the output and its login in the
    registry.  When [open] itself raises for the same path, as for
    [unopenable], the run returns no record, as the claim says. *)
Theorem late_read_failure_keeps_record :
  read_failed (late_failure "f") = true ∧
  read_input_files late_failure ["f"] ∅
  = Some {| combined_records := ["1:ab:A::B:C"];
            existing_logins := {["ab"]} ∪ ∅;
            stderr := [error_message "f" "invalid start byte"] |} ∧
  read_failed (unopenable "f") = true ∧
  read_input_files unopenable ["f"] ∅
  = Some {| combined_records := [];
            existing_logins := ∅;
            stderr := [error_message "f"
                         "[Errno 2] No such file or directory"] |}.
Proof. split_and!; vm_compute; reflexivity. Qed.

(** * The two embeddings of the generator agree

    On strings of code points below 256, [create_login_name] is
    [Unicode.create_login_name] with [Str.lower] for [lower]. *)

Lemma list_ascii_app (s t : string) :
  list_ascii_of_string (s +:+ t)
  = list_ascii_of_string s ++ list_ascii_of_string t.
Proof.
  induction s as [|c s IH]; [done|]. rewrite app_cons. simpl. by rewrite IH.
Qed.

Lemma list_ascii_take (n : nat) (s : string) :
  list_ascii_of_string (Str.take n s) = take n (list_ascii_of_string s).
Proof.
  revert s; induction n as [|n IH]; intros [|c s]; simpl; try done.
  by rewrite IH.
Qed.

Lemma list_ascii_lower (s : string) :
  list_ascii_of_string (Str.lower s) = byte_lower (list_ascii_of_string s).
Proof.
  unfold byte_lower. induction s as [|c s IH]; [done|]. simpl. by rewrite IH.
Qed.

Lemma list_ascii_str (k : nat) :
  list_ascii_of_string (Str.of_nat k) = Unicode.str id k.
Proof. unfold Unicode.str. by rewrite list_fmap_id. Qed.

Lemma list_ascii_base_name (g m f : string) :
  list_ascii_of_string (base_name g m f)
  = Unicode.base_name byte_lower (list_ascii_of_string g)
      (list_ascii_of_string m) (list_ascii_of_string f).
Proof.
  unfold base_name, Unicode.base_name, initials, Unicode.initials.
  rewrite list_ascii_take, list_ascii_lower, list_ascii_app. do 3 f_equal.
  destruct m as [|d m]; simpl Str.truthy; cbv iota.
  - by rewrite list_ascii_lower, list_ascii_take.
  - rewrite list_ascii_app, !list_ascii_lower, !list_ascii_take. done.
Qed.

Lemma elem_of_as_lists (u : string) (reg : registry) :
  list_ascii_of_string u ∈ as_lists reg ↔ u ∈ reg.
Proof.
  unfold as_lists. rewrite elem_of_map. split.
  - by intros (v & ->%list_ascii_inj & Hv).
  - intros Hu. by exists u.
Qed.

Lemma size_as_lists (reg : registry) : size (as_lists reg) = size reg.
Proof.
  unfold as_lists, set_map. rewrite size_list_to_set, length_fmap; [done|].
  apply NoDup_fmap_2_strong; [|apply NoDup_elements].
  intros x y _ _. apply list_ascii_inj.
Qed.

Lemma list_ascii_while_taken (fuel : nat) (b u : string) (c : nat)
    (reg : registry) :
  Unicode.while_taken id fuel (list_ascii_of_string b)
    (list_ascii_of_string u) c (as_lists reg)
  = list_ascii_of_string <$> while_taken fuel b u c reg.
Proof.
  revert u c. induction fuel as [|fuel IH]; intros u c; simpl.
  - destruct (decide (u ∈ reg)) as [Hu|Hu].
    + by rewrite decide_True by (by apply elem_of_as_lists).
    + by rewrite decide_False by (by rewrite elem_of_as_lists).
  - destruct (decide (u ∈ reg)) as [Hu|Hu].
    + rewrite decide_True by (by apply elem_of_as_lists).
      by rewrite <- IH, list_ascii_app, list_ascii_str.
    + by rewrite decide_False by (by rewrite elem_of_as_lists).
Qed.

Lemma create_login_name_agrees (g m f : string) (reg : registry) :
  Unicode.create_login_name byte_lower id (list_ascii_of_string g)
    (list_ascii_of_string m) (list_ascii_of_string f) (as_lists reg)
  = (λ ur, (list_ascii_of_string ur.1, as_lists ur.2)) <$>
      create_login_name g m f reg.
Proof.
  unfold Unicode.create_login_name, create_login_name.
  rewrite <- list_ascii_base_name, size_as_lists, list_ascii_while_taken.
  destruct (while_taken _ _ _ _ _) as [u|]; [|done]. simpl.
  unfold as_lists. by rewrite set_map_union_L, set_map_singleton_L.
Qed.
